(** * CAN intrusion detection core of [main_pic32mzda.c]

    A shallow embedding of the detection engine of the PIC32MZ firmware:
    the identifier firewall [id_in_ranges], the baseline table maintained by
    [learn_baseline], the per-frame classifier [detect_anomaly] and the
    dispatcher [CAN_MessageReceived] with its sliding window and flood test.

    The C globals ([baselines], [baseline_count], the function-static
    [window]) and the UART alert channel form one record [IDS]; the C
    functions are written in a state-and-fault monad over it.  A fault
    ([None]) stands for what C leaves undefined: an array access out of
    bounds or a remainder by zero. *)

From Stdlib Require Import ZArith Lia SpecFloat.
From stdpp Require Import base tactics option list.

Open Scope Z_scope.

(** ** Data model *)

(** [CANMessage]: identifier, data length code, eight payload bytes and the
    reception time stamp. *)
Record CANMessage := mkCANMessage {
  can_id : Z;
  dlc : Z;
  data : list Z;
  timestamp : Z
}.

(** [IdRange]: an inclusive interval of accepted identifiers. *)
Record IdRange := mkIdRange {
  range_start : Z;
  range_end : Z
}.

(** [BaselinePattern]: what was learned for one identifier. *)
Record BaselinePattern := mkBaselinePattern {
  bl_can_id : Z;
  bl_dlc : Z;
  expected_pattern : list Z
}.

(** [MessageWindow]: the ring of admitted frames, its write cursor and the
    counter of admitted frames. *)
Record MessageWindow := mkMessageWindow {
  messages : list CANMessage;
  index : Z;
  count : Z
}.

Inductive AlertType := ALERT_ANOMALY_DETECTED | ALERT_DOS_DETECTED.

(** The mutable state of the engine.  [uart_alerts] is the trace of the calls
    to [raise_intrusion_alert], oldest first: each one sends one line over the
    UART DMA channel. *)
Record IDS := mkIDS {
  baselines : list BaselinePattern;
  baseline_count : Z;
  window : MessageWindow;
  uart_alerts : list (AlertType * CANMessage)
}.

Definition set_baselines (bs : list BaselinePattern) (s : IDS) : IDS :=
  mkIDS bs (baseline_count s) (window s) (uart_alerts s).

Definition set_baseline_count (n : Z) (s : IDS) : IDS :=
  mkIDS (baselines s) n (window s) (uart_alerts s).

Definition set_window (w : MessageWindow) (s : IDS) : IDS :=
  mkIDS (baselines s) (baseline_count s) w (uart_alerts s).

Definition set_uart_alerts (l : list (AlertType * CANMessage)) (s : IDS) : IDS :=
  mkIDS (baselines s) (baseline_count s) (window s) l.

Definition set_bl_can_id (v : Z) (e : BaselinePattern) : BaselinePattern :=
  mkBaselinePattern v (bl_dlc e) (expected_pattern e).

Definition set_bl_dlc (v : Z) (e : BaselinePattern) : BaselinePattern :=
  mkBaselinePattern (bl_can_id e) v (expected_pattern e).

Definition set_expected_pattern (p : list Z) (e : BaselinePattern) : BaselinePattern :=
  mkBaselinePattern (bl_can_id e) (bl_dlc e) p.

Definition set_messages (ms : list CANMessage) (w : MessageWindow) : MessageWindow :=
  mkMessageWindow ms (index w) (count w).

Definition set_index (i : Z) (w : MessageWindow) : MessageWindow :=
  mkMessageWindow (messages w) i (count w).

Definition set_count (c : Z) (w : MessageWindow) : MessageWindow :=
  mkMessageWindow (messages w) (index w) c.

(** Capacity of the [baselines] table: [BaselinePattern baselines[100]]. *)
Definition BASELINE_CAPACITY : Z := 100.

(** ** Fixed-size arrays *)

(** A C array is a list of its declared length; reading or writing outside
    of it is a fault. *)
Definition array_get {A : Type} (a : list A) (i : Z) : option A :=
  if 0 <=? i then a !! Z.to_nat i else None.

Definition array_set {A : Type} (a : list A) (i : Z) (x : A) : option (list A) :=
  if (0 <=? i) && (i <? Z.of_nat (length a))
  then Some (<[Z.to_nat i := x]> a) else None.

(** ** The state-and-fault monad *)

Definition M (A : Type) : Type := IDS -> option (A * IDS).

Definition ret {A : Type} (a : A) : M A := fun s => Some (a, s).

Definition bind {A B : Type} (m : M A) (k : A -> M B) : M B :=
  fun s => match m s with
           | Some (a, s') => k a s'
           | None => None
           end.

Definition fault {A : Type} : M A := fun _ => None.

Definition gets {A : Type} (f : IDS -> A) : M A := fun s => Some (f s, s).

Definition modify (f : IDS -> IDS) : M unit := fun s => Some (tt, f s).

Definition lift_opt {A : Type} (o : option A) : M A :=
  match o with
  | Some a => ret a
  | None => fault
  end.

Declare Scope ids_scope.
Delimit Scope ids_scope with ids.
Notation "x <- m ;; k" := (bind m (fun x => k))
  (at level 100, m at next level, k at level 200, right associativity) : ids_scope.
Notation "m ;; k" := (bind m (fun _ => k))
  (at level 100, k at level 200, right associativity) : ids_scope.
Open Scope ids_scope.

(** How a loop body ends: fall through to the next iteration, [break], or
    [return r] from the enclosing function. *)
Inductive ctl (R : Type) : Type :=
| Next : ctl R
| Break : ctl R
| Return : R -> ctl R.
Arguments Next {R}.
Arguments Break {R}.
Arguments Return {R} _.

(** [for (int i = i0; i < i0 + n; i++) body]: the result tells how the loop
    was left. *)
Fixpoint for_loop {R : Type} (n : nat) (i : Z) (body : Z -> M (ctl R)) : M (ctl R) :=
  match n with
  | O => ret Next
  | S n' =>
      c <- body i ;;
      match c with
      | Next => for_loop n' (i + 1) body
      | _ => ret c
      end
  end.

(** A loop without early exit that updates a local variable [acc]. *)
Fixpoint for_acc {A : Type} (n : nat) (i : Z) (acc : A) (body : Z -> A -> M A) : M A :=
  match n with
  | O => ret acc
  | S n' => acc' <- body i acc ;; for_acc n' (i + 1) acc' body
  end.

(** ** Accessors of the globals *)

(** [baselines[i]] as an rvalue. *)
Definition load_baseline (i : Z) : M BaselinePattern :=
  bs <- gets baselines ;; lift_opt (array_get bs i).

(** [baselines[i] = e]. *)
Definition store_baseline (i : Z) (e : BaselinePattern) : M unit :=
  bs <- gets baselines ;;
  bs' <- lift_opt (array_set bs i e) ;;
  modify (set_baselines bs').

(** [window.messages[i]] as an rvalue. *)
Definition load_window_message (i : Z) : M CANMessage :=
  ms <- gets (fun s => messages (window s)) ;; lift_opt (array_get ms i).

(** [window.messages[i] = m]. *)
Definition store_window_message (i : Z) (m : CANMessage) : M unit :=
  ms <- gets (fun s => messages (window s)) ;;
  ms' <- lift_opt (array_set ms i m) ;;
  modify (fun s => set_window (set_messages ms' (window s)) s).

(** [msg->data[j]]. *)
Definition msg_data (msg : CANMessage) (j : Z) : M Z :=
  lift_opt (array_get (data msg) j).

(** ** Binary64 arithmetic of the flood threshold *)

Definition double_prec : Z := 53.
Definition double_emax : Z := 1024.

(** Conversion of an integer to [double] (exact below 2^53). *)
Definition double_of_Z (z : Z) : spec_float :=
  binary_normalize double_prec double_emax z 0 false.

(** The literal [0.7]: the double nearest to 7/10, 0x1.6666666666666p-1. *)
Definition double_0_7 : spec_float := S754_finite false 6305039478318694 (-53).

(** [count > (WINDOW_SIZE * 0.7)] with [count] a [uint32_t]: both operands
    are converted to [double], the product is rounded to nearest even. *)
Definition exceeds_dos_threshold (window_size cnt : Z) : bool :=
  SFltb (SFmul double_prec double_emax (double_of_Z window_size) double_0_7)
        (double_of_Z cnt).

Section Engine.

(** The configuration that [sensors.h] supplies and that is not part of the
    sources at hand: the firewall table built from the [RANGE_*] constants,
    the ring capacity and the modulus of the unsigned type of
    [MessageWindow.count]. *)
Variable idRanges : list IdRange.
Variable WINDOW_SIZE : Z.
Variable COUNT_MODULUS : Z.

(** ** [id_in_ranges] *)

(** The loop over [idRanges]: the first range that contains [ident] ends the
    search with [true]. *)
Fixpoint id_in_ranges_from (rs : list IdRange) (ident : Z) : bool :=
  match rs with
  | [] => false
  | r :: rs' =>
      if (range_start r <=? ident) && (ident <=? range_end r) then true
      else id_in_ranges_from rs' ident
  end.

Definition id_in_ranges (ident : Z) : bool := id_in_ranges_from idRanges ident.

(** ** [learn_baseline] *)

Definition learn_baseline (msg : CANMessage) : M unit :=
  n <- gets baseline_count ;;
  c <- for_loop (Z.to_nat n) 0 (fun i =>
         e <- load_baseline i ;;
         if bl_can_id e =? can_id msg then
           (* Update existing baseline *)
           store_baseline i (set_bl_dlc (dlc msg) e) ;;
           ret (Return tt)
         else ret Next) ;;
  match c with
  | Return _ => ret tt
  | _ =>
      (* Add new baseline *)
      n <- gets baseline_count ;;
      if n <? BASELINE_CAPACITY then
        e <- load_baseline n ;;
        store_baseline n (set_bl_can_id (can_id msg) e) ;;
        e <- load_baseline n ;;
        store_baseline n (set_bl_dlc (dlc msg) e) ;;
        for_loop (R := unit) 8 0 (fun j =>
          v <- msg_data msg j ;;
          e <- load_baseline n ;;
          p <- lift_opt (array_set (expected_pattern e) j v) ;;
          store_baseline n (set_expected_pattern p e) ;;
          ret Next) ;;
        modify (set_baseline_count ((n + 1) mod 256))
      else ret tt
  end.

(** ** [detect_anomaly] *)

(** Check 2, the scan for a DLC mismatch: [true] when the scan leaves the
    function with [return true], [false] when it ends by [break] or by
    exhausting the learned entries. *)
Definition dlc_mismatch (msg : CANMessage) : M bool :=
  n <- gets baseline_count ;;
  c <- for_loop (Z.to_nat n) 0 (fun i =>
         e <- load_baseline i ;;
         if bl_can_id e =? can_id msg then
           if negb (dlc msg =? bl_dlc e) then ret (Return true)
           else ret Break
         else ret Next) ;;
  match c with
  | Return b => ret b
  | _ => ret false
  end.

(** Check 3, the payload range of the temperature identifiers. *)
Definition payload_out_of_range (msg : CANMessage) : M bool :=
  if (0x300 <=? can_id msg) && (can_id msg <=? 0x399) then
    temp_value <- msg_data msg 0 ;;
    if temp_value >? 120 then ret true else ret false
  else ret false.

Definition detect_anomaly (msg : CANMessage) : M bool :=
  (* Check 1: CAN ID out of expected range for sensor network *)
  if negb (id_in_ranges (can_id msg)) then ret true
  else
    (* Check 2: DLC mismatch *)
    b <- dlc_mismatch msg ;;
    if b then ret true
    else
      (* Check 3: Payload pattern analysis *)
      b <- payload_out_of_range msg ;;
      if b then ret true
      else ret false.

(** ** Alerts *)

(** [log_alert] formats the alert type and hands the line to the UART DMA
    channel; the trace keeps the alert and the frame it was raised for. *)
Definition log_alert (msg : CANMessage) (alert_type : AlertType) : M unit :=
  modify (fun s => set_uart_alerts (uart_alerts s ++ [(alert_type, msg)]) s).

Definition raise_intrusion_alert (msg : CANMessage) (alert_type : AlertType) : M unit :=
  log_alert msg alert_type.

(** ** [CAN_MessageReceived] *)

(** The histogram loop: [id_counts[window.messages[i].can_id & 0xFF]++] for
    every slot of the ring, [id_counts] being a local array of 256
    [uint32_t] set to zero. *)
Definition count_ids : M (list Z) :=
  for_acc (Z.to_nat WINDOW_SIZE) 0 (replicate 256 0) (fun i id_counts =>
    m <- load_window_message i ;;
    let id_hash := Z.land (can_id m) 0xFF in
    c <- lift_opt (array_get id_counts id_hash) ;;
    lift_opt (array_set id_counts id_hash ((c + 1) mod 2 ^ 32))).

(** The scan of the 256 buckets; the first bucket above the threshold raises
    the alert and returns. *)
Definition check_dos (msg : CANMessage) (id_counts : list Z) : M (ctl unit) :=
  for_loop 256 0 (fun i =>
    c <- lift_opt (array_get id_counts i) ;;
    if exceeds_dos_threshold WINDOW_SIZE c then
      raise_intrusion_alert msg ALERT_DOS_DETECTED ;;
      ret (Return tt)
    else ret Next).

Definition CAN_MessageReceived (msg : CANMessage) : M unit :=
  (* Check for anomaly *)
  a <- detect_anomaly msg ;;
  if a then
    raise_intrusion_alert msg ALERT_ANOMALY_DETECTED
  else
    (* Add to window *)
    i <- gets (fun s => index (window s)) ;;
    store_window_message i msg ;;
    (if WINDOW_SIZE =? 0 then fault
     else modify (fun s => set_window (set_index (Z.rem (i + 1) WINDOW_SIZE) (window s)) s)) ;;
    modify (fun s => set_window (set_count ((count (window s) + 1) mod COUNT_MODULUS) (window s)) s) ;;
    (* After collecting window of messages, check for traffic patterns *)
    c <- gets (fun s => count (window s)) ;;
    if c >=? WINDOW_SIZE then
      id_counts <- count_ids ;;
      check_dos msg id_counts ;;
      ret tt
    else ret tt.

(** ** Well-formed states and frames *)

(** The payload array of a frame has its eight bytes. *)
Definition wf_msg (m : CANMessage) : Prop := length (data m) = 8%nat.

(** The baseline table has its hundred entries, each with an eight byte
    pattern, and the occupancy count stays within the table. *)
Definition wf_baselines (s : IDS) : Prop :=
  length (baselines s) = 100%nat /\
  0 <= baseline_count s <= BASELINE_CAPACITY /\
  Forall (fun e => length (expected_pattern e) = 8%nat) (baselines s).

(** The ring has [WINDOW_SIZE] slots and the cursor points into it. *)
Definition wf_window (s : IDS) : Prop :=
  length (messages (window s)) = Z.to_nat WINDOW_SIZE /\
  0 <= index (window s) < WINDOW_SIZE.

(** The first learned entry whose identifier is [ident], with its position:
    what both scans of the table look for. *)
Definition lookup_baseline (s : IDS) (ident : Z) : option (nat * BaselinePattern) :=
  list_find (fun e => bl_can_id e = ident)
            (take (Z.to_nat (baseline_count s)) (baselines s)).

(** The identifiers that have been learned, in the order of the table. *)
Definition learned_ids (s : IDS) : list Z :=
  bl_can_id <$> take (Z.to_nat (baseline_count s)) (baselines s).

(** The state that [learn_baseline] leaves: the first entry of the
    identifier gets the DLC of the frame; without such an entry a new one is
    appended while the table has room. *)
Definition learn_result (msg : CANMessage) (s : IDS) : IDS :=
  match lookup_baseline s (can_id msg) with
  | Some (j, e) => set_baselines (<[j := set_bl_dlc (dlc msg) e]> (baselines s)) s
  | None =>
      if baseline_count s <? BASELINE_CAPACITY then
        set_baseline_count ((baseline_count s + 1) mod 256)
          (set_baselines
             (<[Z.to_nat (baseline_count s) :=
                  mkBaselinePattern (can_id msg) (dlc msg) (data msg)]> (baselines s)) s)
      else s
  end.

(** What the copy loop of [learn_baseline] leaves in the pattern [dst] after
    [k] iterations from position [j]. *)
Fixpoint copy_bytes (k j : nat) (src dst : list Z) : list Z :=
  match k with
  | O => dst
  | S k' =>
      match src !! j with
      | Some v => copy_bytes k' (S j) src (<[j := v]> dst)
      | None => dst
      end
  end.

(** The learning phase: the frames of normal traffic are learned in turn. *)
Fixpoint learn_all (fs : list CANMessage) : M unit :=
  match fs with
  | [] => ret tt
  | f :: fs' => learn_baseline f ;; learn_all fs'
  end.

(** The globals as C initialises them: all zero. *)
Definition zero_baseline : BaselinePattern := mkBaselinePattern 0 0 (replicate 8 0).
Definition zero_message : CANMessage := mkCANMessage 0 0 (replicate 8 0) 0.
Definition initial_state : IDS :=
  mkIDS (replicate 100 zero_baseline) 0
        (mkMessageWindow (replicate (Z.to_nat WINDOW_SIZE) zero_message) 0 0) [].

(** The dispatcher fed with a sequence of frames, one call per frame. *)
Fixpoint receive_all (fs : list CANMessage) : M unit :=
  match fs with
  | [] => ret tt
  | f :: fs' => CAN_MessageReceived f ;; receive_all fs'
  end.

(** The window after an admitted frame: the frame is written at the cursor,
    the cursor advances around the ring and the counter is incremented. *)
Definition window_push (msg : CANMessage) (w : MessageWindow) : MessageWindow :=
  mkMessageWindow (<[Z.to_nat (index w) := msg]> (messages w))
                  (Z.rem (index w + 1) WINDOW_SIZE)
                  ((count w + 1) mod COUNT_MODULUS).

(** The bucket of an identifier: its low eight bits. *)
Definition id_hash (m : CANMessage) : Z := Z.land (can_id m) 0xFF.

(** How many frames of [ms] fall into bucket [b]. *)
Definition bucket_count (ms : list CANMessage) (b : Z) : nat :=
  length (filter (fun m => id_hash m = b) ms).

(** The histogram of the ring: the 256 bucket counts. *)
Definition histogram (ms : list CANMessage) : list Z :=
  (fun b => Z.of_nat (bucket_count ms (Z.of_nat b))) <$> seq 0 256.

(** The flood test on the contents of the ring: some bucket is above the
    threshold. *)
Definition flood (ms : list CANMessage) : bool :=
  existsb (exceeds_dos_threshold WINDOW_SIZE) (histogram ms).

(** The alert of the flood stage for the window [w] that the frame was
    admitted to. *)
Definition dos_raised (w : MessageWindow) : bool :=
  (count w >=? WINDOW_SIZE) && flood (messages w).

(** The state that [CAN_MessageReceived] leaves for a frame that passed the
    classifier. *)
Definition admit_state (msg : CANMessage) (s : IDS) : IDS :=
  let w := window_push msg (window s) in
  if dos_raised w
  then set_uart_alerts (uart_alerts s ++ [(ALERT_DOS_DETECTED, msg)]) (set_window w s)
  else set_window w s.

(** The state after a sequence of frames that all passed the classifier. *)
Fixpoint admit_all (fs : list CANMessage) (s : IDS) : IDS :=
  match fs with
  | [] => s
  | f :: fs' => admit_all fs' (admit_state f s)
  end.

(** The ring [w] holds the frames [L], oldest first, rotated so that the
    oldest one sits at the cursor. *)
Definition ring_holds (w : MessageWindow) (L : list CANMessage) : Prop :=
  exists r : nat,
    index w = Z.of_nat r /\
    (r < Z.to_nat WINDOW_SIZE)%nat /\
    length L = Z.to_nat WINDOW_SIZE /\
    messages w = drop (Z.to_nat WINDOW_SIZE - r) L ++ take (Z.to_nat WINDOW_SIZE - r) L.

(** A uniform round-robin over the identifiers [ids]: the frame at position
    [t] carries the identifier at position [t mod length ids]. *)
Definition round_robin (ids : list Z) (fs : list CANMessage) : Prop :=
  forall t f, fs !! t = Some f -> ids !! (t mod length ids)%nat = Some (can_id f).

(** The ring capacities for which the binary64 threshold was evaluated, and
    those among them where rounding [WINDOW_SIZE * 0.7] gives the double
    just below 70% of the capacity. *)
Definition MAX_CHECKED_WINDOW : nat := 256.
Definition rounded_down_windows : list Z := [90; 170; 180].

Definition threshold_agrees (w c : Z) : bool :=
  if bool_decide (w ∈ rounded_down_windows)
  then Bool.eqb (exceeds_dos_threshold w c) (7 * w <=? 10 * c)
  else Bool.eqb (exceeds_dos_threshold w c) (7 * w <? 10 * c).

(** Two states with the same baseline store. *)
Definition same_store (s1 s2 : IDS) : Prop :=
  baselines s1 = baselines s2 /\ baseline_count s1 = baseline_count s2.

(** A computation that only reads the baseline store: it leaves the state as
    it found it, and its result is the same on states with the same store. *)
Definition store_reader {A : Type} (m : M A) : Prop :=
  forall s1 s2, same_store s1 s2 ->
    m s2 = match m s1 with
           | Some (a, _) => Some (a, s2)
           | None => None
           end.

(** ** Monad and loop lemmas *)

Lemma bind_eval {A B : Type} (m : M A) (k : A -> M B) (s s' : IDS) (a : A) :
  m s = Some (a, s') -> bind m k s = k a s'.
Proof. intros H. unfold bind. by rewrite H. Qed.

Lemma lift_opt_Some {A : Type} (o : option A) (a : A) (s : IDS) :
  o = Some a -> lift_opt o s = Some (a, s).
Proof. by intros ->. Qed.

Lemma same_store_refl (s : IDS) : same_store s s.
Proof. by split. Qed.

Lemma store_reader_read_only {A : Type} (m : M A) (s s' : IDS) (a : A) :
  store_reader m -> m s = Some (a, s') -> s' = s.
Proof.
  intros Hm H. specialize (Hm s s (same_store_refl s)).
  rewrite H in Hm. congruence.
Qed.

Lemma store_reader_ret {A : Type} (a : A) : store_reader (ret a).
Proof. by intros s1 s2 _. Qed.

Lemma store_reader_fault {A : Type} : store_reader (@fault A).
Proof. by intros s1 s2 _. Qed.

Lemma store_reader_gets_baselines : store_reader (gets baselines).
Proof. intros s1 s2 [H _]. unfold gets. by rewrite H. Qed.

Lemma store_reader_gets_baseline_count : store_reader (gets baseline_count).
Proof. intros s1 s2 [_ H]. unfold gets. by rewrite H. Qed.

Lemma store_reader_lift_opt {A : Type} (o : option A) : store_reader (lift_opt o).
Proof. destruct o; [apply store_reader_ret | apply store_reader_fault]. Qed.

Lemma store_reader_bind {A B : Type} (m : M A) (k : A -> M B) :
  store_reader m -> (forall a, store_reader (k a)) -> store_reader (bind m k).
Proof.
  intros Hm Hk s1 s2 Hs. unfold bind. rewrite (Hm s1 s2 Hs).
  destruct (m s1) as [[a s1']|] eqn:E; [|reflexivity].
  apply (store_reader_read_only _ _ _ _ Hm) in E. subst s1'.
  by apply Hk.
Qed.

Lemma store_reader_for_loop {R : Type} (body : Z -> M (ctl R)) :
  (forall i, store_reader (body i)) ->
  forall n i, store_reader (for_loop n i body).
Proof.
  intros Hb n. induction n as [|n IH]; intros i; simpl.
  - apply store_reader_ret.
  - apply store_reader_bind; [apply Hb|].
    intros [| |r]; [apply IH | apply store_reader_ret | apply store_reader_ret].
Qed.

Lemma store_reader_load_baseline i : store_reader (load_baseline i).
Proof.
  apply store_reader_bind; [apply store_reader_gets_baselines|].
  intros bs. apply store_reader_lift_opt.
Qed.

Lemma array_get_Some {A : Type} (a : list A) (i : Z) (x : A) :
  0 <= i -> a !! Z.to_nat i = Some x -> array_get a i = Some x.
Proof.
  intros Hi H. unfold array_get.
  destruct (0 <=? i) eqn:E; [exact H | apply Z.leb_gt in E; lia].
Qed.

Lemma array_get_Z {A : Type} (a : list A) (i : Z) :
  0 <= i -> array_get a i = a !! Z.to_nat i.
Proof.
  intros Hi. unfold array_get.
  destruct (0 <=? i) eqn:E; [done | apply Z.leb_gt in E; lia].
Qed.

Lemma array_set_Z {A : Type} (a : list A) (i : Z) (x : A) :
  0 <= i < Z.of_nat (length a) -> array_set a i x = Some (<[Z.to_nat i := x]> a).
Proof.
  intros Hi. unfold array_set.
  destruct (0 <=? i) eqn:E1; [|apply Z.leb_gt in E1; lia].
  destruct (i <? Z.of_nat (length a)) eqn:E2; [done|apply Z.ltb_ge in E2; lia].
Qed.

Lemma array_get_nat {A : Type} (a : list A) (i : nat) :
  array_get a (Z.of_nat i) = a !! i.
Proof.
  unfold array_get. destruct (0 <=? Z.of_nat i) eqn:E.
  - by rewrite Nat2Z.id.
  - apply Z.leb_gt in E. lia.
Qed.

Lemma array_set_nat {A : Type} (a : list A) (i : nat) (x : A) :
  (i < length a)%nat -> array_set a (Z.of_nat i) x = Some (<[i := x]> a).
Proof.
  intros Hi. unfold array_set.
  destruct (0 <=? Z.of_nat i) eqn:E1; [|apply Z.leb_gt in E1; lia].
  destruct (Z.of_nat i <? Z.of_nat (length a)) eqn:E2; [|apply Z.ltb_ge in E2; lia].
  simpl. by rewrite Nat2Z.id.
Qed.

Lemma load_baseline_nat (i : nat) (s : IDS) (e : BaselinePattern) :
  baselines s !! i = Some e -> load_baseline (Z.of_nat i) s = Some (e, s).
Proof.
  intros H. unfold load_baseline, bind, gets. by rewrite array_get_nat, H.
Qed.

Lemma store_baseline_nat (i : nat) (s : IDS) (e : BaselinePattern) :
  (i < length (baselines s))%nat ->
  store_baseline (Z.of_nat i) e s = Some (tt, set_baselines (<[i := e]> (baselines s)) s).
Proof.
  intros H. unfold store_baseline, bind, gets. by rewrite array_set_nat.
Qed.

(** The scan of the learned entries for an identifier, whatever is done at
    the first match: the iterations before it fall through. *)
Lemma scan_loop {R : Type} (K : Z -> BaselinePattern -> M (ctl R)) (ident : Z) (s : IDS) :
  forall (k i : nat),
    (i + k <= length (baselines s))%nat ->
    for_loop k (Z.of_nat i)
      (fun i => e <- load_baseline i ;;
                if bl_can_id e =? ident then K i e else ret Next) s =
    match list_find (fun e => bl_can_id e = ident) (take k (drop i (baselines s))) with
    | None => Some (Next, s)
    | Some (j, e) =>
        (c <- K (Z.of_nat (i + j)) e ;;
         match c with
         | Next => for_loop (k - S j) (Z.of_nat (i + j) + 1)
                     (fun i => e <- load_baseline i ;;
                               if bl_can_id e =? ident then K i e else ret Next)
         | _ => ret c
         end) s
    end.
Proof.
  induction k as [|k IH]; intros i Hlen.
  - by rewrite take_0.
  - destruct (baselines s !! i) as [e|] eqn:Hi;
      [|apply lookup_ge_None in Hi; lia].
    rewrite (drop_S _ _ _ Hi). simpl.
    unfold bind at 1 2. rewrite (load_baseline_nat _ _ _ Hi).
    destruct (decide (bl_can_id e = ident)) as [Heq|Hne].
    + apply Z.eqb_eq in Heq. rewrite Heq.
      rewrite Nat.add_0_r, Nat.sub_0_r. reflexivity.
    + apply Z.eqb_neq in Hne. rewrite Hne.
      replace (Z.of_nat i + 1) with (Z.of_nat (S i)) by lia.
      unfold ret at 1. rewrite IH by lia.
      destruct (list_find _ (take k (drop (S i) (baselines s)))) as [[j e']|]; simpl;
        [|reflexivity].
      replace (i + S j)%nat with (S i + j)%nat by lia. reflexivity.
Qed.

Lemma lookup_baseline_Some (s : IDS) (ident : Z) (j : nat) (e : BaselinePattern) :
  lookup_baseline s ident = Some (j, e) <->
  (j < Z.to_nat (baseline_count s))%nat /\
  baselines s !! j = Some e /\
  bl_can_id e = ident /\
  (forall j' e', (j' < j)%nat -> baselines s !! j' = Some e' -> bl_can_id e' <> ident).
Proof.
  unfold lookup_baseline. rewrite list_find_Some. split.
  - intros (Hj & Hid & Hfirst).
    apply lookup_take_Some in Hj as [Hj Hlt].
    repeat split; try done.
    intros j' e' Hlt' Hj'. apply (Hfirst j'); [|done].
    rewrite lookup_take_lt by lia. done.
  - intros (Hlt & Hj & Hid & Hfirst). repeat split; try done.
    + rewrite lookup_take_lt by lia. done.
    + intros j' e' Hj' Hlt'. apply lookup_take_Some in Hj' as [Hj' _]. eauto.
Qed.

Lemma lookup_baseline_None (s : IDS) (ident : Z) :
  lookup_baseline s ident = None <->
  (forall j e, (j < Z.to_nat (baseline_count s))%nat ->
               baselines s !! j = Some e -> bl_can_id e <> ident).
Proof.
  unfold lookup_baseline. rewrite list_find_None, Forall_lookup. split.
  - intros H j e Hlt Hj. apply (H j). rewrite lookup_take_lt by lia. done.
  - intros H j e Hj. apply lookup_take_Some in Hj as [Hj Hlt]. eauto.
Qed.

(** ** The classifier *)

Lemma id_in_ranges_from_false (rs : list IdRange) (ident : Z) :
  id_in_ranges_from rs ident = false <->
  (forall r, r ∈ rs -> ~ (range_start r <= ident <= range_end r)).
Proof.
  induction rs as [|r rs IH]; simpl.
  - split; [intros _ r Hr; inversion Hr | done].
  - destruct ((range_start r <=? ident) && (ident <=? range_end r)) eqn:E.
    + split; [done|]. intros H. exfalso. apply (H r); [left|].
      apply andb_true_iff in E as [E1 E2]. lia.
    + rewrite IH. split.
      * intros H r' Hr'. apply elem_of_cons in Hr' as [->|Hr']; [|by apply H].
        apply andb_false_iff in E as [E|E]; lia.
      * intros H r' Hr'. apply H. by right.
Qed.

Lemma store_reader_dlc_mismatch msg : store_reader (dlc_mismatch msg).
Proof.
  apply store_reader_bind; [apply store_reader_gets_baseline_count|]. intros n.
  apply store_reader_bind.
  - apply store_reader_for_loop. intros i.
    apply store_reader_bind; [apply store_reader_load_baseline|]. intros e.
    destruct (bl_can_id e =? can_id msg); [|apply store_reader_ret].
    destruct (negb (dlc msg =? bl_dlc e)); apply store_reader_ret.
  - intros [| |b]; apply store_reader_ret.
Qed.

Lemma store_reader_payload_out_of_range msg : store_reader (payload_out_of_range msg).
Proof.
  unfold payload_out_of_range.
  destruct ((768 <=? can_id msg) && (can_id msg <=? 921)); [|apply store_reader_ret].
  apply store_reader_bind; [apply store_reader_lift_opt|]. intros v.
  destruct (v >? 120); apply store_reader_ret.
Qed.

Lemma store_reader_detect_anomaly msg : store_reader (detect_anomaly msg).
Proof.
  unfold detect_anomaly.
  destruct (negb (id_in_ranges (can_id msg))); [apply store_reader_ret|].
  apply store_reader_bind; [apply store_reader_dlc_mismatch|]. intros b.
  destruct b; [apply store_reader_ret|].
  apply store_reader_bind; [apply store_reader_payload_out_of_range|]. intros b.
  destruct b; apply store_reader_ret.
Qed.

(** The DLC scan decides by the first learned entry of the identifier. *)
Lemma dlc_mismatch_spec (msg : CANMessage) (s : IDS) :
  (Z.to_nat (baseline_count s) <= length (baselines s))%nat ->
  dlc_mismatch msg s =
  Some (match lookup_baseline s (can_id msg) with
        | Some (_, e) => negb (dlc msg =? bl_dlc e)
        | None => false
        end, s).
Proof.
  intros Hlen. unfold dlc_mismatch, lookup_baseline.
  unfold bind at 1. unfold gets. unfold bind at 1.
  change 0 with (Z.of_nat 0).
  rewrite scan_loop by (simpl; lia). rewrite drop_0.
  destruct (list_find _ _) as [[j e]|]; [|reflexivity].
  unfold bind. destruct (negb (dlc msg =? bl_dlc e)); reflexivity.
Qed.

Lemma payload_out_of_range_temp (msg : CANMessage) (s : IDS) (v : Z) :
  0x300 <= can_id msg <= 0x399 ->
  data msg !! 0%nat = Some v ->
  payload_out_of_range msg s = Some (v >? 120, s).
Proof.
  intros Hid Hv. unfold payload_out_of_range, msg_data, bind.
  replace ((768 <=? can_id msg) && (can_id msg <=? 921)) with true
    by (symmetry; apply andb_true_iff; lia).
  change (array_get (data msg) 0) with (data msg !! 0%nat). rewrite Hv. simpl.
  destruct (v >? 120); reflexivity.
Qed.

Lemma detect_anomaly_after_dlc (msg : CANMessage) (s : IDS) :
  id_in_ranges (can_id msg) = true ->
  dlc_mismatch msg s = Some (false, s) ->
  detect_anomaly msg s = payload_out_of_range msg s.
Proof.
  intros Hin Hd. unfold detect_anomaly. rewrite Hin. simpl.
  unfold bind at 1. rewrite Hd. unfold bind.
  destruct (payload_out_of_range msg s) as [[[|] s']|]; reflexivity.
Qed.

(** The classifier returns on every well-formed state and frame. *)
Lemma detect_anomaly_total (msg : CANMessage) (s : IDS) :
  wf_baselines s -> wf_msg msg -> exists b, detect_anomaly msg s = Some (b, s).
Proof.
  intros (Hlen & Hcnt & _) Hmsg. unfold detect_anomaly.
  destruct (negb (id_in_ranges (can_id msg))); [by eexists|].
  unfold bind at 1. rewrite dlc_mismatch_spec by (unfold BASELINE_CAPACITY in *; lia).
  destruct (match lookup_baseline s (can_id msg) with
            | Some (_, e) => negb (dlc msg =? bl_dlc e) | None => false end);
    [by eexists|].
  unfold payload_out_of_range, msg_data.
  destruct ((768 <=? can_id msg) && (can_id msg <=? 921)); [|by eexists].
  unfold wf_msg in Hmsg. destruct (data msg) as [|v l]; [discriminate|].
  unfold bind. simpl. destruct (v >? 120); by eexists.
Qed.

(** C1: a frame whose identifier lies outside every configured range is
    classified as an anomaly by the first check alone: [id_in_ranges] answers
    [false] and [detect_anomaly] returns [true] without touching the state,
    whatever the payload of the frame (even a malformed one) and whatever the
    contents of the baseline store. *)
Theorem unknown_identifier_is_anomaly (msg : CANMessage) (s : IDS) :
  (forall r, r ∈ idRanges -> ~ (range_start r <= can_id msg <= range_end r)) ->
  id_in_ranges (can_id msg) = false /\ detect_anomaly msg s = Some (true, s).
Proof.
  intros Hout.
  assert (Hf : id_in_ranges (can_id msg) = false)
    by (by apply id_in_ranges_from_false).
  split; [exact Hf|]. unfold detect_anomaly. by rewrite Hf.
Qed.

(** C2: for a frame that passes the firewall, the length check is decided by
    the first learned entry [e] of its identifier: a DLC that differs from
    the stored one makes [detect_anomaly] return [true]; an equal DLC never
    fires the check, and neither does the absence of an entry: in both cases
    the verdict is left to the payload check. *)
Theorem dlc_check_fires_only_on_mismatch (msg : CANMessage) (s : IDS) :
  (Z.to_nat (baseline_count s) <= length (baselines s))%nat ->
  id_in_ranges (can_id msg) = true ->
  (forall j e,
      lookup_baseline s (can_id msg) = Some (j, e) ->
      dlc msg <> bl_dlc e ->
      dlc_mismatch msg s = Some (true, s) /\
      detect_anomaly msg s = Some (true, s)) /\
  (forall j e,
      lookup_baseline s (can_id msg) = Some (j, e) ->
      dlc msg = bl_dlc e ->
      dlc_mismatch msg s = Some (false, s) /\
      detect_anomaly msg s = payload_out_of_range msg s) /\
  ((forall j e, (j < Z.to_nat (baseline_count s))%nat ->
                baselines s !! j = Some e -> bl_can_id e <> can_id msg) ->
   dlc_mismatch msg s = Some (false, s) /\
   detect_anomaly msg s = payload_out_of_range msg s).
Proof.
  intros Hlen Hin. pose proof (dlc_mismatch_spec msg s Hlen) as Hd.
  split; [|split].
  - intros j e Hl Hne. rewrite Hl in Hd.
    apply Z.eqb_neq in Hne. rewrite Hne in Hd. simpl in Hd.
    split; [exact Hd|]. unfold detect_anomaly. rewrite Hin. simpl.
    unfold bind. by rewrite Hd.
  - intros j e Hl Heq. rewrite Hl in Hd.
    apply Z.eqb_eq in Heq. rewrite Heq in Hd. simpl in Hd.
    split; [exact Hd|]. by apply detect_anomaly_after_dlc.
  - intros Hnone. apply lookup_baseline_None in Hnone. rewrite Hnone in Hd.
    split; [exact Hd|]. by apply detect_anomaly_after_dlc.
Qed.

(** C3: for a frame of the temperature identifiers 0x300..0x399 the payload
    check fires exactly when [data[0]] exceeds 120.  When the frame reaches
    that check (it passed the firewall and the length check did not fire) the
    verdict of [detect_anomaly] is the verdict of the payload check; in
    particular a reading above 120 is an anomaly when no entry was learned
    for the identifier. *)
Theorem temperature_payload_check (msg : CANMessage) (s : IDS) (v : Z) :
  0x300 <= can_id msg <= 0x399 ->
  data msg !! 0%nat = Some v ->
  (v <= 120 -> payload_out_of_range msg s = Some (false, s)) /\
  (120 < v -> payload_out_of_range msg s = Some (true, s)) /\
  (id_in_ranges (can_id msg) = true ->
   dlc_mismatch msg s = Some (false, s) ->
   (v <= 120 -> detect_anomaly msg s = Some (false, s)) /\
   (120 < v -> detect_anomaly msg s = Some (true, s))) /\
  (id_in_ranges (can_id msg) = true ->
   (Z.to_nat (baseline_count s) <= length (baselines s))%nat ->
   lookup_baseline s (can_id msg) = None ->
   120 < v ->
   detect_anomaly msg s = Some (true, s)).
Proof.
  intros Hid Hv. pose proof (payload_out_of_range_temp msg s v Hid Hv) as Hp.
  assert (Hle : v <= 120 -> payload_out_of_range msg s = Some (false, s)).
  { intros H. rewrite Hp. f_equal. f_equal. rewrite Z.gtb_ltb. apply Z.ltb_ge. lia. }
  assert (Hgt : 120 < v -> payload_out_of_range msg s = Some (true, s)).
  { intros H. rewrite Hp. f_equal. f_equal. rewrite Z.gtb_ltb. apply Z.ltb_lt. lia. }
  split; [exact Hle|]. split; [exact Hgt|]. split.
  - intros Hin Hd. rewrite detect_anomaly_after_dlc by done. by split.
  - intros Hin Hlen Hnone H.
    rewrite detect_anomaly_after_dlc; [by apply Hgt | done |].
    rewrite dlc_mismatch_spec by done. by rewrite Hnone.
Qed.

(** C10: classification is read-only and deterministic.  Whenever
    [detect_anomaly] (and with it [id_in_ranges], a function of the constant
    table) returns, the whole state (baseline table, occupancy count, window
    and alert trace) is the one it started from; on a well-formed store and
    frame it does return; and its verdict depends on the frame and the
    baseline store only, so a second call, or a call with another window,
    gives the same verdict. *)
Theorem detect_anomaly_read_only_deterministic (msg : CANMessage) (s : IDS) :
  (forall b s', detect_anomaly msg s = Some (b, s') -> s' = s) /\
  (wf_baselines s -> wf_msg msg ->
   exists b, detect_anomaly msg s = Some (b, s) /\
     forall s2, baselines s2 = baselines s ->
                baseline_count s2 = baseline_count s ->
                detect_anomaly msg s2 = Some (b, s2)).
Proof.
  split.
  - intros b s' H. eapply store_reader_read_only; [|exact H].
    apply store_reader_detect_anomaly.
  - intros Hwf Hmsg. destruct (detect_anomaly_total msg s Hwf Hmsg) as [b Hb].
    exists b. split; [exact Hb|]. intros s2 H1 H2.
    rewrite (store_reader_detect_anomaly msg s s2) by (by split).
    by rewrite Hb.
Qed.

(** ** The baseline store *)

Lemma set_baselines_id (s : IDS) : set_baselines (baselines s) s = s.
Proof. by destruct s. Qed.

Lemma set_expected_pattern_id (e : BaselinePattern) :
  set_expected_pattern (expected_pattern e) e = e.
Proof. by destruct e. Qed.

Lemma copy_bytes_all (src dst : list Z) :
  length src = 8%nat -> length dst = 8%nat -> copy_bytes 8 0 src dst = src.
Proof.
  intros Hs Hd.
  do 9 (destruct src as [|? src]; try discriminate).
  do 9 (destruct dst as [|? dst]; try discriminate).
  reflexivity.
Qed.

(** The copy loop writes the payload bytes into the pattern of entry [n]. *)
Lemma copy_loop (msg : CANMessage) (n : nat) :
  forall (k j : nat) (s : IDS) (e : BaselinePattern),
    baselines s !! n = Some e ->
    (j + k <= length (data msg))%nat ->
    (j + k <= length (expected_pattern e))%nat ->
    for_loop (R := unit) k (Z.of_nat j) (fun j =>
        v <- msg_data msg j ;;
        e <- load_baseline (Z.of_nat n) ;;
        p <- lift_opt (array_set (expected_pattern e) j v) ;;
        store_baseline (Z.of_nat n) (set_expected_pattern p e) ;;
        ret Next) s =
    Some (Next,
          set_baselines
            (<[n := set_expected_pattern
                      (copy_bytes k j (data msg) (expected_pattern e)) e]> (baselines s)) s).
Proof.
  induction k as [|k IH]; intros j s e Hn Hsrc Hdst.
  - simpl. rewrite set_expected_pattern_id, list_insert_id by done.
    by rewrite set_baselines_id.
  - destruct (data msg !! j) as [v|] eqn:Hv; [|apply lookup_ge_None in Hv; lia].
    assert (Hlt : (n < length (baselines s))%nat) by (by eapply lookup_lt_Some).
    cbn [for_loop copy_bytes]. rewrite Hv.
    unfold bind at 1 2. unfold msg_data. rewrite array_get_nat, Hv.
    cbn [lift_opt]. unfold ret at 1. unfold bind at 1.
    rewrite (load_baseline_nat _ _ _ Hn).
    unfold bind at 1. rewrite array_set_nat by lia.
    cbn [lift_opt]. unfold ret at 1. unfold bind at 1.
    rewrite store_baseline_nat by done. unfold ret at 1.
    replace (Z.of_nat j + 1) with (Z.of_nat (S j)) by lia.
    rewrite (IH (S j) _ (set_expected_pattern (<[j:=v]> (expected_pattern e)) e)).
    + cbn. by rewrite list_insert_insert_eq.
    + cbn. by apply list_lookup_insert_eq.
    + lia.
    + cbn. rewrite length_insert. lia.
Qed.

Lemma lookup_baseline_lt (s : IDS) (ident : Z) (j : nat) (e : BaselinePattern) :
  lookup_baseline s ident = Some (j, e) ->
  (j < Z.to_nat (baseline_count s))%nat /\ baselines s !! j = Some e.
Proof. intros H. apply lookup_baseline_Some in H. tauto. Qed.

(** An identifier that has an entry: only the DLC of that entry is written;
    the payload of the frame is not read. *)
Lemma learn_baseline_found (msg : CANMessage) (s : IDS) (j : nat) (e : BaselinePattern) :
  (Z.to_nat (baseline_count s) <= length (baselines s))%nat ->
  lookup_baseline s (can_id msg) = Some (j, e) ->
  learn_baseline msg s =
  Some (tt, set_baselines (<[j := set_bl_dlc (dlc msg) e]> (baselines s)) s).
Proof.
  intros Hlen Hl. unfold learn_baseline.
  unfold bind at 1. unfold gets at 1. unfold bind at 1.
  change 0 with (Z.of_nat 0) at 1.
  rewrite scan_loop by (simpl; lia). rewrite drop_0.
  fold (lookup_baseline s (can_id msg)). rewrite Hl.
  apply lookup_baseline_lt in Hl as [Hj He].
  unfold bind at 1 2. rewrite store_baseline_nat by lia. reflexivity.
Qed.

(** [learn_baseline] returns on every well-formed state and frame, and
    leaves [learn_result]. *)
Lemma learn_baseline_spec (msg : CANMessage) (s : IDS) :
  wf_baselines s -> wf_msg msg ->
  learn_baseline msg s = Some (tt, learn_result msg s).
Proof.
  intros (Hlen & Hcnt & Hpat) Hmsg. unfold BASELINE_CAPACITY in Hcnt.
  destruct (lookup_baseline s (can_id msg)) as [[j e]|] eqn:Hl.
  { rewrite (learn_baseline_found msg s j e) by (done || lia).
    unfold learn_result. by rewrite Hl. }
  unfold learn_baseline, learn_result.
  unfold bind at 1. unfold gets at 1. unfold bind at 1.
  change 0 with (Z.of_nat 0) at 1.
  rewrite scan_loop by (simpl; lia). rewrite drop_0.
  fold (lookup_baseline s (can_id msg)). rewrite Hl.
  unfold bind at 1. unfold gets at 1.
  destruct (baseline_count s <? BASELINE_CAPACITY) eqn:Hfull; [|reflexivity].
  apply Z.ltb_lt in Hfull. unfold BASELINE_CAPACITY in Hfull.
  set (n := Z.to_nat (baseline_count s)).
  assert (Hn : baseline_count s = Z.of_nat n) by lia.
  assert (Hn100 : (n < 100)%nat) by lia.
  clearbody n. rewrite Hn.
  destruct (baselines s !! n) as [e|] eqn:He;
    [|apply lookup_ge_None in He; lia].
  assert (Hpe : length (expected_pattern e) = 8%nat)
    by (eapply Forall_lookup_1 in Hpat; eauto).
  unfold bind at 1. rewrite (load_baseline_nat _ _ _ He).
  unfold bind at 1. rewrite store_baseline_nat by lia.
  unfold bind at 1. erewrite load_baseline_nat
    by (cbn; apply list_lookup_insert_eq; lia).
  unfold bind at 1. rewrite store_baseline_nat by (cbn; rewrite length_insert; lia).
  unfold bind at 1. change 0 with (Z.of_nat 0) at 1.
  erewrite copy_loop; cycle 1.
  { cbn. apply list_lookup_insert_eq. rewrite length_insert. lia. }
  { unfold wf_msg in Hmsg. lia. }
  { cbn. lia. }
  rewrite copy_bytes_all by (cbn; done).
  unfold modify. cbn. rewrite !list_insert_insert_eq. reflexivity.
Qed.

Lemma learn_result_wf (msg : CANMessage) (s : IDS) :
  wf_baselines s -> wf_msg msg -> wf_baselines (learn_result msg s).
Proof.
  intros (Hlen & Hcnt & Hpat) Hmsg. unfold BASELINE_CAPACITY in *.
  unfold learn_result.
  destruct (lookup_baseline s (can_id msg)) as [[j e]|] eqn:Hl.
  - apply lookup_baseline_lt in Hl as [Hj He].
    split; [|split]; cbn; [|unfold BASELINE_CAPACITY; lia|].
    + by rewrite length_insert.
    + apply Forall_insert; [done|]. cbn. eapply Forall_lookup_1 in Hpat; eauto.
  - destruct (baseline_count s <? BASELINE_CAPACITY) eqn:Hfull; [|done].
    apply Z.ltb_lt in Hfull. unfold BASELINE_CAPACITY in Hfull.
    rewrite Z.mod_small by lia.
    split; [|split]; cbn; [|unfold BASELINE_CAPACITY; lia|].
    + by rewrite length_insert.
    + by apply Forall_insert.
Qed.

Lemma lookup_baseline_updated (s : IDS) (ident d : Z) (j : nat) (e : BaselinePattern) :
  lookup_baseline s ident = Some (j, e) ->
  lookup_baseline (set_baselines (<[j := set_bl_dlc d e]> (baselines s)) s) ident =
  Some (j, set_bl_dlc d e).
Proof.
  intros H. apply lookup_baseline_Some in H as (Hj & He & Hid & Hfirst).
  apply lookup_baseline_Some. cbn. split; [done|]. split; [|split; [done|]].
  - apply list_lookup_insert_eq. by eapply lookup_lt_Some.
  - intros j' e' Hlt He'. rewrite list_lookup_insert_ne in He' by lia. eauto.
Qed.

Lemma lookup_baseline_appended (s : IDS) (msg : CANMessage) :
  wf_baselines s ->
  lookup_baseline s (can_id msg) = None ->
  baseline_count s < BASELINE_CAPACITY ->
  lookup_baseline (learn_result msg s) (can_id msg) =
  Some (Z.to_nat (baseline_count s),
        mkBaselinePattern (can_id msg) (dlc msg) (data msg)).
Proof.
  intros (Hlen & Hcnt & _) Hnone Hroom. unfold BASELINE_CAPACITY in *.
  unfold learn_result. rewrite Hnone.
  replace (baseline_count s <? BASELINE_CAPACITY) with true
    by (symmetry; apply Z.ltb_lt; unfold BASELINE_CAPACITY; lia).
  apply lookup_baseline_Some. cbn. rewrite Z.mod_small by lia.
  split; [lia|]. split; [|split; [done|]].
  - apply list_lookup_insert_eq. lia.
  - intros j' e' Hlt He'. rewrite list_lookup_insert_ne in He' by lia.
    eapply lookup_baseline_None in Hnone; eauto.
Qed.

Lemma learn_result_idempotent (msg : CANMessage) (s : IDS) :
  wf_baselines s ->
  learn_result msg (learn_result msg s) = learn_result msg s.
Proof.
  intros Hwf.
  destruct (lookup_baseline s (can_id msg)) as [[j e]|] eqn:Hl.
  - assert (H1 : learn_result msg s =
                 set_baselines (<[j := set_bl_dlc (dlc msg) e]> (baselines s)) s)
      by (unfold learn_result; by rewrite Hl).
    rewrite H1. unfold learn_result at 1.
    rewrite (lookup_baseline_updated _ _ _ _ _ Hl). cbn.
    by rewrite list_insert_insert_eq.
  - destruct (baseline_count s <? BASELINE_CAPACITY) eqn:Hfull.
    + apply Z.ltb_lt in Hfull. unfold learn_result at 1.
      rewrite (lookup_baseline_appended s msg Hwf Hl Hfull).
      unfold learn_result. rewrite Hl.
      replace (baseline_count s <? BASELINE_CAPACITY) with true
        by (symmetry; by apply Z.ltb_lt).
      cbn. by rewrite list_insert_insert_eq.
    + assert (H1 : learn_result msg s = s)
        by (unfold learn_result; by rewrite Hl, Hfull).
      by rewrite !H1.
Qed.

(** C7: learning is idempotent, and learning a known identifier writes the
    DLC only.  On a well-formed store, [learn_baseline] called twice in a row
    with the same frame leaves the state that one call leaves.  When the
    identifier of the frame has an entry [e] at position [j], the call
    leaves at [j] the entry with the identifier and the expected pattern of
    [e] and the DLC of the frame; every other entry, the occupancy count,
    the window and the alert trace are unchanged. *)
Theorem learn_idempotent_and_dlc_only (msg : CANMessage) (s : IDS) :
  wf_baselines s ->
  (wf_msg msg ->
   exists s1, learn_baseline msg s = Some (tt, s1) /\
              learn_baseline msg s1 = Some (tt, s1)) /\
  (forall j e,
     lookup_baseline s (can_id msg) = Some (j, e) ->
     exists s1, learn_baseline msg s = Some (tt, s1) /\
       baselines s1 !! j =
         Some (mkBaselinePattern (bl_can_id e) (dlc msg) (expected_pattern e)) /\
       (forall j', j' <> j -> baselines s1 !! j' = baselines s !! j') /\
       length (baselines s1) = length (baselines s) /\
       baseline_count s1 = baseline_count s /\
       window s1 = window s /\
       uart_alerts s1 = uart_alerts s).
Proof.
  intros Hwf. split.
  - intros Hmsg. exists (learn_result msg s).
    split; [by apply learn_baseline_spec|].
    rewrite learn_baseline_spec by (done || by apply learn_result_wf).
    by rewrite learn_result_idempotent.
  - intros j e Hl. destruct Hwf as (Hlen & Hcnt & _). unfold BASELINE_CAPACITY in *.
    eexists. split; [apply (learn_baseline_found msg s j e); [lia|done]|].
    apply lookup_baseline_lt in Hl as [Hj He]. cbn.
    split; [apply list_lookup_insert_eq; lia|].
    split; [intros j' Hne; by apply list_lookup_insert_ne|].
    split; [by rewrite length_insert|done].
Qed.

(** A table that is full: a frame whose identifier has no entry is dropped
    and its payload is not read. *)
Lemma learn_baseline_full (msg : CANMessage) (s : IDS) :
  (Z.to_nat (baseline_count s) <= length (baselines s))%nat ->
  lookup_baseline s (can_id msg) = None ->
  BASELINE_CAPACITY <= baseline_count s ->
  learn_baseline msg s = Some (tt, s).
Proof.
  intros Hlen Hl Hfull. unfold learn_baseline.
  unfold bind at 1. unfold gets at 1. unfold bind at 1.
  change 0 with (Z.of_nat 0) at 1.
  rewrite scan_loop by (simpl; lia). rewrite drop_0.
  fold (lookup_baseline s (can_id msg)). rewrite Hl.
  unfold bind at 1. unfold gets at 1.
  replace (baseline_count s <? BASELINE_CAPACITY) with false
    by (symmetry; apply Z.ltb_ge; lia).
  reflexivity.
Qed.

(** Check 3 on a frame of a temperature identifier without a payload byte 0:
    the read of [msg->data[0]] leaves the array. *)
Lemma payload_out_of_range_missing (msg : CANMessage) (s : IDS) :
  0x300 <= can_id msg <= 0x399 ->
  data msg !! 0%nat = None ->
  payload_out_of_range msg s = None.
Proof.
  intros Hid Hv. unfold payload_out_of_range, msg_data, bind.
  replace ((768 <=? can_id msg) && (can_id msg <=? 921)) with true
    by (symmetry; apply andb_true_iff; lia).
  change (array_get (data msg) 0) with (data msg !! 0%nat). by rewrite Hv.
Qed.

(** C9, as the code has it: neither function looks at the DLC before it
    reads the payload, and what each of them reads is this.

    [detect_anomaly] reads no payload byte when the identifier is outside
    every range, outside 0x300..0x399, or when the DLC scan fires: two frames
    with the same identifier and DLC then get the same result whatever their
    payloads are.  Otherwise it reads byte 0, with any DLC (also 0): the
    verdict is [data[0] > 120], and a frame without a byte 0 is read outside
    its payload.  It reads no other byte.

    [learn_baseline] reads no payload byte when the identifier has an entry
    or the table is full.  When it creates an entry it copies all eight
    bytes, whatever the DLC: two well-formed frames with the same identifier
    and DLC then leave the same store exactly when their eight bytes are
    equal.

    So two well-formed frames that agree on identifier, DLC and the first
    DLC bytes get the same verdict when the DLC is at least 1 and leave the
    same store when the DLC is at least 8. *)
Theorem payload_bytes_read (m1 m2 : CANMessage) (s : IDS) :
  can_id m1 = can_id m2 ->
  dlc m1 = dlc m2 ->
  (id_in_ranges (can_id m1) = false \/ ~ (0x300 <= can_id m1 <= 0x399) ->
   detect_anomaly m1 s = detect_anomaly m2 s) /\
  ((Z.to_nat (baseline_count s) <= length (baselines s))%nat ->
   forall j e, lookup_baseline s (can_id m1) = Some (j, e) -> bl_dlc e <> dlc m1 ->
   detect_anomaly m1 s = detect_anomaly m2 s) /\
  ((Z.to_nat (baseline_count s) <= length (baselines s))%nat ->
   id_in_ranges (can_id m1) = true ->
   0x300 <= can_id m1 <= 0x399 ->
   (forall j e, lookup_baseline s (can_id m1) = Some (j, e) -> bl_dlc e = dlc m1) ->
   (forall v, data m1 !! 0%nat = Some v -> detect_anomaly m1 s = Some (v >? 120, s)) /\
   (data m1 !! 0%nat = None -> detect_anomaly m1 s = None)) /\
  (data m1 !! 0%nat = data m2 !! 0%nat ->
   detect_anomaly m1 s = detect_anomaly m2 s) /\
  ((Z.to_nat (baseline_count s) <= length (baselines s))%nat ->
   lookup_baseline s (can_id m1) <> None \/ BASELINE_CAPACITY <= baseline_count s ->
   learn_baseline m1 s = learn_baseline m2 s) /\
  (wf_baselines s -> wf_msg m1 -> wf_msg m2 ->
   lookup_baseline s (can_id m1) = None ->
   baseline_count s < BASELINE_CAPACITY ->
   (learn_baseline m1 s = learn_baseline m2 s <-> data m1 = data m2)) /\
  (wf_msg m1 -> wf_msg m2 ->
   take (Z.to_nat (dlc m1)) (data m1) = take (Z.to_nat (dlc m2)) (data m2) ->
   (1 <= dlc m1 -> detect_anomaly m1 s = detect_anomaly m2 s) /\
   (8 <= dlc m1 -> learn_baseline m1 s = learn_baseline m2 s)).
Proof.
  intros Hid Hdlc.
  assert (Hdet : data m1 !! 0%nat = data m2 !! 0%nat ->
                 detect_anomaly m1 s = detect_anomaly m2 s).
  { intros H0. unfold detect_anomaly, dlc_mismatch, payload_out_of_range, msg_data.
    change (array_get (data m1) 0) with (data m1 !! 0%nat).
    change (array_get (data m2) 0) with (data m2 !! 0%nat).
    by rewrite Hid, Hdlc, H0. }
  assert (Hlearn : data m1 = data m2 -> learn_baseline m1 s = learn_baseline m2 s).
  { intros Hd. unfold learn_baseline, msg_data. by rewrite Hid, Hdlc, Hd. }
  split; [|split; [|split; [|split; [exact Hdet|split; [|split]]]]].
  - (* check 3 is not reached: the firewall rejects, or no temperature identifier *)
    intros [Hout|Hout].
    + unfold detect_anomaly. rewrite <- Hid, Hout. reflexivity.
    + unfold detect_anomaly, dlc_mismatch, payload_out_of_range.
      rewrite <- Hid, <- Hdlc.
      replace ((768 <=? can_id m1) && (can_id m1 <=? 921)) with false; [done|].
      symmetry. apply andb_false_iff.
      destruct (Z.leb_spec 768 (can_id m1)); [right; apply Z.leb_gt; lia | by left].
  - (* check 3 is not reached: the DLC scan fires *)
    intros Hlen j e Hl Hne.
    assert (H1 : dlc_mismatch m1 s = Some (true, s)).
    { rewrite dlc_mismatch_spec, Hl by done.
      replace (dlc m1 =? bl_dlc e) with false by (symmetry; apply Z.eqb_neq; lia).
      reflexivity. }
    assert (H2 : dlc_mismatch m2 s = Some (true, s)).
    { rewrite dlc_mismatch_spec, <- Hid, Hl, <- Hdlc by done.
      replace (dlc m1 =? bl_dlc e) with false by (symmetry; apply Z.eqb_neq; lia).
      reflexivity. }
    unfold detect_anomaly. rewrite <- Hid.
    destruct (negb (id_in_ranges (can_id m1))); [done|].
    unfold bind. rewrite H1, H2. reflexivity.
  - (* check 3 is reached: byte 0 is read, whatever the DLC *)
    intros Hlen Hin Htemp Hsame.
    assert (Hd : dlc_mismatch m1 s = Some (false, s)).
    { rewrite dlc_mismatch_spec by done.
      destruct (lookup_baseline s (can_id m1)) as [[j e]|] eqn:Hl; [|done].
      rewrite (Hsame j e eq_refl). by rewrite Z.eqb_refl. }
    rewrite (detect_anomaly_after_dlc m1 s Hin Hd). split.
    + intros v Hv. by apply payload_out_of_range_temp.
    + intros Hv. by apply payload_out_of_range_missing.
  - (* learning: an entry is updated or the table is full *)
    intros Hlen [Hsome|Hfull].
    + destruct (lookup_baseline s (can_id m1)) as [[j e]|] eqn:Hl; [|done].
      rewrite (learn_baseline_found m1 s j e Hlen Hl).
      rewrite (learn_baseline_found m2 s j e Hlen) by (by rewrite <- Hid).
      by rewrite Hdlc.
    + destruct (lookup_baseline s (can_id m1)) as [[j e]|] eqn:Hl.
      * rewrite (learn_baseline_found m1 s j e Hlen Hl).
        rewrite (learn_baseline_found m2 s j e Hlen) by (by rewrite <- Hid).
        by rewrite Hdlc.
      * rewrite (learn_baseline_full m1 s Hlen Hl Hfull).
        rewrite (learn_baseline_full m2 s Hlen) by (by rewrite <- ?Hid).
        reflexivity.
  - (* learning: a new entry takes all eight bytes *)
    intros Hwf Hw1 Hw2 Hnone Hroom.
    rewrite !learn_baseline_spec by done.
    unfold learn_result. rewrite <- Hid, <- Hdlc, Hnone.
    replace (baseline_count s <? BASELINE_CAPACITY) with true
      by (symmetry; by apply Z.ltb_lt).
    destruct Hwf as (Hlen & Hcnt & _).
    split.
    + intros Heq.
      assert (Hb : baselines
                     (set_baseline_count ((baseline_count s + 1) mod 256)
                        (set_baselines
                           (<[Z.to_nat (baseline_count s) :=
                                mkBaselinePattern (can_id m1) (dlc m1) (data m1)]>
                              (baselines s)) s)) =
                   baselines
                     (set_baseline_count ((baseline_count s + 1) mod 256)
                        (set_baselines
                           (<[Z.to_nat (baseline_count s) :=
                                mkBaselinePattern (can_id m1) (dlc m1) (data m2)]>
                              (baselines s)) s)))
        by congruence.
      cbn in Hb.
      apply (f_equal (fun l => l !! Z.to_nat (baseline_count s))) in Hb.
      rewrite !list_lookup_insert_eq in Hb by (unfold BASELINE_CAPACITY in *; lia).
      congruence.
    + by intros ->.
  - intros Hw1 Hw2 Htake. split.
    + intros Hge. apply Hdet.
      rewrite <- (lookup_take_lt (data m1) (Z.to_nat (dlc m1)) 0) by lia.
      rewrite <- (lookup_take_lt (data m2) (Z.to_nat (dlc m2)) 0) by lia.
      by rewrite Htake.
    + intros Hge. apply Hlearn. unfold wf_msg in *.
      rewrite <- (take_ge (data m1) (Z.to_nat (dlc m1))) by lia.
      rewrite <- (take_ge (data m2) (Z.to_nat (dlc m2))) by lia.
      exact Htake.
Qed.

(** *** Capacity *)

Lemma lookup_baseline_None_ids (s : IDS) (ident : Z) :
  lookup_baseline s ident = None <-> ident ∉ learned_ids s.
Proof.
  rewrite lookup_baseline_None. unfold learned_ids. split.
  - intros H Hin. apply list_elem_of_fmap in Hin as (e & -> & He).
    apply elem_of_take in He as (i & Hi & Hlt). by eapply H.
  - intros H j e Hlt Hj Heq. apply H. subst ident.
    apply list_elem_of_fmap_2. apply elem_of_take. eauto.
Qed.

Lemma learned_ids_length (s : IDS) :
  (Z.to_nat (baseline_count s) <= length (baselines s))%nat ->
  length (learned_ids s) = Z.to_nat (baseline_count s).
Proof.
  intros H. unfold learned_ids. by rewrite length_fmap, length_take_le.
Qed.

(** The effect of one learned frame on the identifiers of the table. *)
Lemma learn_result_ids (msg : CANMessage) (s : IDS) :
  wf_baselines s ->
  (can_id msg ∈ learned_ids s /\
   learned_ids (learn_result msg s) = learned_ids s /\
   baseline_count (learn_result msg s) = baseline_count s) \/
  ((can_id msg ∉ learned_ids s) /\ baseline_count s < BASELINE_CAPACITY /\
   learned_ids (learn_result msg s) = learned_ids s ++ [can_id msg] /\
   baseline_count (learn_result msg s) = baseline_count s + 1) \/
  ((can_id msg ∉ learned_ids s) /\ BASELINE_CAPACITY <= baseline_count s /\
   learn_result msg s = s).
Proof.
  intros (Hlen & Hcnt & _). unfold BASELINE_CAPACITY in *.
  destruct (lookup_baseline s (can_id msg)) as [[j e]|] eqn:Hl.
  - left. unfold learn_result. rewrite Hl.
    apply lookup_baseline_Some in Hl as (Hj & He & Hid & _).
    split; [|split; [|done]].
    + rewrite <- Hid. unfold learned_ids.
      apply list_elem_of_fmap_2, elem_of_take. eauto.
    + unfold learned_ids. cbn. rewrite take_insert_lt by done.
      rewrite list_fmap_insert. cbn. apply list_insert_id.
      rewrite list_lookup_fmap, lookup_take_lt by done. by rewrite He.
  - right. pose proof Hl as Hnone. apply lookup_baseline_None_ids in Hnone.
    unfold learn_result. rewrite Hl.
    destruct (baseline_count s <? BASELINE_CAPACITY) eqn:Hfull.
    + left. apply Z.ltb_lt in Hfull. unfold BASELINE_CAPACITY in Hfull.
      split; [done|]. split; [unfold BASELINE_CAPACITY; lia|].
      cbn. rewrite Z.mod_small by lia. split; [|done].
      unfold learned_ids. cbn.
      replace (Z.to_nat (baseline_count s + 1)) with (S (Z.to_nat (baseline_count s)))
        by lia.
      erewrite take_S_r by (apply list_lookup_insert_eq; lia).
      rewrite take_insert_ge by lia. by rewrite fmap_app.
    + right. apply Z.ltb_ge in Hfull. unfold BASELINE_CAPACITY in Hfull.
      split; [done|]. split; [lia|done].
Qed.

(** The learning phase keeps the table free of duplicate identifiers, learns
    nothing but identifiers it was shown, and misses none of them while the
    table has room. *)
Lemma learn_all_inv (fs : list CANMessage) :
  forall (s : IDS) (seen : list Z),
    wf_baselines s -> Forall wf_msg fs ->
    NoDup (learned_ids s) ->
    (forall x, x ∈ learned_ids s -> x ∈ seen) ->
    (baseline_count s < BASELINE_CAPACITY -> forall x, x ∈ seen -> x ∈ learned_ids s) ->
    exists s', learn_all fs s = Some (tt, s') /\
      wf_baselines s' /\
      NoDup (learned_ids s') /\
      (forall x, x ∈ learned_ids s' -> x ∈ seen ++ (can_id <$> fs)) /\
      (baseline_count s' < BASELINE_CAPACITY ->
       forall x, x ∈ seen ++ (can_id <$> fs) -> x ∈ learned_ids s').
Proof.
  induction fs as [|f fs IH]; intros s seen Hwf Hfs Hnd Hsub Hall.
  - exists s. cbn [learn_all fmap list_fmap]. rewrite app_nil_r.
    split; [done|]. split; [done|]. split; [done|]. by split.
  - apply Forall_cons in Hfs as [Hf Hfs]. cbn [learn_all].
    unfold bind. rewrite learn_baseline_spec by done.
    pose proof (learn_result_wf f s Hwf Hf) as Hwf1.
    destruct (IH (learn_result f s) (seen ++ [can_id f]) Hwf1 Hfs)
      as (s' & Hrun & Hwf' & Hnd' & Hsub' & Hall').
    + destruct (learn_result_ids f s Hwf) as
        [(Hin & -> & _)|[(Hnin & _ & -> & _)|(_ & _ & ->)]]; try done.
      apply NoDup_app. split; [done|]. split; [|apply NoDup_singleton].
      intros x Hx Hx'. apply list_elem_of_singleton in Hx'. by subst.
    + intros x. rewrite elem_of_app, list_elem_of_singleton.
      destruct (learn_result_ids f s Hwf) as
        [(Hin & -> & _)|[(Hnin & _ & -> & _)|(_ & _ & ->)]]; auto.
      rewrite elem_of_app, list_elem_of_singleton. intros [?|?]; auto.
    + intros Hroom x. rewrite elem_of_app, list_elem_of_singleton.
      destruct (learn_result_ids f s Hwf) as
        [(Hin & Hids & Hc)|[(Hnin & Hlt & Hids & Hc)|(Hnin & Hge & Heq)]].
      * rewrite Hids. rewrite Hc in Hroom. intros [? | ->]; auto.
      * rewrite Hids, elem_of_app, list_elem_of_singleton.
        intros [? | ->]; auto.
      * rewrite Heq in Hroom. lia.
    + exists s'. rewrite <- app_assoc in Hsub', Hall'.
      split; [done|]. split; [done|]. split; [done|]. by split.
Qed.

(** C6: the table holds 100 identifiers and no more.  After a learning
    phase that showed exactly 100 distinct identifiers (in any order, with
    any repetitions) to an empty table, the occupancy count is 100 and the
    learned identifiers are those shown.  A further frame with another
    identifier has no entry, and [learn_baseline] returns on it without a
    fault and leaves the whole state (the 100 entries, the count, the window
    and the alert trace) as it was. *)
Theorem baseline_capacity_law (fs : list CANMessage) (msg : CANMessage) (s0 : IDS) :
  wf_baselines s0 ->
  baseline_count s0 = 0 ->
  Forall wf_msg fs ->
  wf_msg msg ->
  length (remove_dups (can_id <$> fs)) = 100%nat ->
  can_id msg ∉ (can_id <$> fs) ->
  exists s, learn_all fs s0 = Some (tt, s) /\
    baseline_count s = 100 /\
    (forall x, x ∈ learned_ids s <-> x ∈ (can_id <$> fs)) /\
    lookup_baseline s (can_id msg) = None /\
    learn_baseline msg s = Some (tt, s).
Proof.
  intros Hwf0 Hc0 Hfs Hmsg Hdistinct Hfresh.
  assert (Hids0 : learned_ids s0 = []) by (unfold learned_ids; by rewrite Hc0).
  destruct (learn_all_inv fs s0 [] Hwf0 Hfs) as (s & Hrun & Hwf & Hnd & Hsub & Hall).
  { rewrite Hids0. apply NoDup_nil_2. }
  { rewrite Hids0. intros x Hx. inversion Hx. }
  { intros _ x Hx. inversion Hx. }
  rewrite app_nil_l in Hsub, Hall.
  pose proof Hwf as (Hlen & Hcnt & _). unfold BASELINE_CAPACITY in *.
  assert (Hsize : length (learned_ids s) = Z.to_nat (baseline_count s))
    by (apply learned_ids_length; lia).
  assert (Hfull : baseline_count s = 100).
  { destruct (decide (baseline_count s < 100)) as [Hlt|Hge]; [|lia].
    assert (remove_dups (can_id <$> fs) ⊆+ learned_ids s) as Hle.
    { apply NoDup_submseteq; [apply NoDup_remove_dups|].
      intros x Hx. rewrite elem_of_remove_dups in Hx. exact (Hall Hlt x Hx). }
    apply submseteq_length in Hle. lia. }
  assert (Hsame : forall x, x ∈ learned_ids s <-> x ∈ (can_id <$> fs)).
  { intros x. split; [apply Hsub|]. intros Hx.
    assert (learned_ids s ⊆+ remove_dups (can_id <$> fs)) as Hle.
    { apply NoDup_submseteq; [done|].
      intros y Hy. apply elem_of_remove_dups. by apply Hsub. }
    assert (Hperm : learned_ids s ≡ₚ remove_dups (can_id <$> fs)).
    { apply submseteq_length_Permutation; [done|]. lia. }
    rewrite Hperm. by apply elem_of_remove_dups. }
  assert (Hnone : lookup_baseline s (can_id msg) = None).
  { apply lookup_baseline_None_ids. intros Hin. apply Hfresh. by apply Hsame. }
  exists s. repeat split; try done; try (by apply Hsame).
  rewrite learn_baseline_spec by done. unfold learn_result. rewrite Hnone.
  replace (baseline_count s <? BASELINE_CAPACITY) with false; [done|].
  symmetry. apply Z.ltb_ge. unfold BASELINE_CAPACITY. lia.
Qed.

(** ** The flood threshold *)

Lemma threshold_table :
  forallb (fun w => forallb (fun c => threshold_agrees (Z.of_nat w) (Z.of_nat c))
                            (seq 0 (S w)))
          (seq 1 MAX_CHECKED_WINDOW) = true.
Proof. vm_cast_no_check (eq_refl true). Qed.

Lemma threshold_agrees_checked (w c : Z) :
  1 <= w <= Z.of_nat MAX_CHECKED_WINDOW -> 0 <= c <= w ->
  threshold_agrees w c = true.
Proof.
  intros Hw Hc. pose proof threshold_table as H.
  rewrite forallb_forall in H.
  specialize (H (Z.to_nat w)). rewrite Z2Nat.id in H by lia.
  assert (Hin : In (Z.to_nat w) (seq 1 MAX_CHECKED_WINDOW))
    by (apply in_seq; lia).
  specialize (H Hin). rewrite forallb_forall in H.
  specialize (H (Z.to_nat c)). rewrite Z2Nat.id in H by lia.
  apply H. apply in_seq. lia.
Qed.


(** For every checked capacity: above 70% the test holds, below it fails. *)
Lemma exceeds_dos_threshold_bounds (w c : Z) :
  1 <= w <= Z.of_nat MAX_CHECKED_WINDOW -> 0 <= c <= w ->
  (7 * w < 10 * c -> exceeds_dos_threshold w c = true) /\
  (10 * c < 7 * w -> exceeds_dos_threshold w c = false).
Proof.
  intros Hw Hc. pose proof (threshold_agrees_checked w c Hw Hc) as H.
  unfold threshold_agrees in H.
  destruct (bool_decide (w ∈ rounded_down_windows));
    apply Bool.eqb_prop in H; rewrite H; split; intros; lia.
Qed.

(** ** The dispatcher *)

Lemma id_hash_range (m : CANMessage) : 0 <= id_hash m < 256.
Proof.
  unfold id_hash. change 255 with (Z.ones 8).
  rewrite Z.land_ones by lia. apply Z.mod_pos_bound. lia.
Qed.

Lemma bucket_count_snoc (ms : list CANMessage) (m : CANMessage) (b : Z) :
  bucket_count (ms ++ [m]) b =
  (bucket_count ms b + (if decide (id_hash m = b) then 1 else 0))%nat.
Proof.
  unfold bucket_count. rewrite filter_app, length_app. f_equal.
  rewrite filter_cons, filter_nil. by destruct (decide (id_hash m = b)).
Qed.

Lemma bucket_count_le (ms : list CANMessage) (b : Z) :
  (bucket_count ms b <= length ms)%nat.
Proof. unfold bucket_count. apply length_filter. Qed.

Lemma load_window_message_nat (i : nat) (s : IDS) (m : CANMessage) :
  messages (window s) !! i = Some m ->
  load_window_message (Z.of_nat i) s = Some (m, s).
Proof.
  intros H. unfold load_window_message, bind, gets. by rewrite array_get_nat, H.
Qed.

(** The histogram loop: after the slots below [i], [id_counts] holds the
    bucket counts of those slots. *)
Lemma count_ids_loop (s : IDS) :
  Z.of_nat (length (messages (window s))) < 2 ^ 32 ->
  forall (n i : nat) (acc : list Z),
    (i + n <= length (messages (window s)))%nat ->
    length acc = 256%nat ->
    (forall b, (b < 256)%nat ->
       acc !! b = Some (Z.of_nat (bucket_count (take i (messages (window s))) (Z.of_nat b)))) ->
    exists acc',
      for_acc n (Z.of_nat i) acc (fun i id_counts =>
        m <- load_window_message i ;;
        let id_hash := Z.land (can_id m) 0xFF in
        c <- lift_opt (array_get id_counts id_hash) ;;
        lift_opt (array_set id_counts id_hash ((c + 1) mod 2 ^ 32))) s = Some (acc', s) /\
      length acc' = 256%nat /\
      (forall b, (b < 256)%nat ->
         acc' !! b =
         Some (Z.of_nat (bucket_count (take (i + n) (messages (window s))) (Z.of_nat b)))).
Proof.
  intros Hsmall. induction n as [|n IH]; intros i acc Hlen Hacc Hinv.
  - exists acc. rewrite Nat.add_0_r. by repeat split.
  - destruct (messages (window s) !! i) as [m|] eqn:Hm;
      [|apply lookup_ge_None in Hm; lia].
    pose proof (id_hash_range m) as Hh. unfold id_hash in Hh.
    set (h := Z.land (can_id m) 255) in *.
    pose proof (Hinv (Z.to_nat h) ltac:(lia)) as Hc.
    cbn [for_acc].
    erewrite bind_eval; cycle 1.
    { erewrite bind_eval by (by apply load_window_message_nat).
      cbv zeta. fold h.
      erewrite bind_eval by (apply lift_opt_Some; by rewrite array_get_Z by lia).
      apply lift_opt_Some, array_set_Z. lia. }
    replace (Z.of_nat i + 1) with (Z.of_nat (S i)) by lia.
    replace (i + S n)%nat with (S i + n)%nat by lia.
    apply IH; [lia | by rewrite length_insert |].
    intros b Hb. rewrite (take_S_r _ _ _ Hm), bucket_count_snoc.
    pose proof (bucket_count_le (take i (messages (window s))) (Z.of_nat (Z.to_nat h))) as Hle.
    rewrite length_take in Hle.
    destruct (decide (b = Z.to_nat h)) as [->|Hne].
    + rewrite list_lookup_insert_eq by lia. f_equal.
      rewrite Z.mod_small by lia.
      rewrite decide_True by (unfold id_hash; fold h; lia). lia.
    + rewrite list_lookup_insert_ne by done. rewrite Hinv by done. f_equal.
      rewrite decide_False by (unfold id_hash; fold h; lia). lia.
Qed.

Lemma count_ids_spec (s : IDS) :
  length (messages (window s)) = Z.to_nat WINDOW_SIZE ->
  WINDOW_SIZE < 2 ^ 32 ->
  count_ids s = Some (histogram (messages (window s)), s).
Proof.
  intros Hlen Hsmall. unfold count_ids.
  destruct (count_ids_loop s ltac:(lia) (Z.to_nat WINDOW_SIZE) 0 (replicate 256 0))
    as (acc & Hrun & Hacc & Hb).
  - lia.
  - apply length_replicate.
  - intros b Hlt. rewrite take_0. by apply lookup_replicate_2.
  - change (Z.of_nat 0) with 0 in Hrun. cbv zeta in Hrun.
    rewrite Hrun. f_equal. f_equal.
    apply list_eq. intros b. unfold histogram.
    rewrite list_lookup_fmap.
    destruct (decide (b < 256)%nat) as [Hlt|Hge].
    + rewrite Hb by done. rewrite lookup_seq_lt by done. cbn.
      rewrite take_ge by lia. done.
    + rewrite (lookup_ge_None_2 acc) by lia.
      rewrite lookup_seq_ge by lia. done.
Qed.

(** The scan of the buckets raises the alert for the first bucket above the
    threshold, if there is one. *)
Lemma check_dos_loop (msg : CANMessage) (id_counts : list Z) (s : IDS) :
  forall (n i : nat),
    (i + n <= length id_counts)%nat ->
    for_loop n (Z.of_nat i) (fun i =>
      c <- lift_opt (array_get id_counts i) ;;
      if exceeds_dos_threshold WINDOW_SIZE c then
        raise_intrusion_alert msg ALERT_DOS_DETECTED ;;
        ret (Return tt)
      else ret Next) s =
    if existsb (exceeds_dos_threshold WINDOW_SIZE) (take n (drop i id_counts))
    then Some (Return tt,
               set_uart_alerts (uart_alerts s ++ [(ALERT_DOS_DETECTED, msg)]) s)
    else Some (Next, s).
Proof.
  induction n as [|n IH]; intros i Hlen.
  - by rewrite take_0.
  - destruct (id_counts !! i) as [c|] eqn:Hc;
      [|apply lookup_ge_None in Hc; lia].
    rewrite (drop_S _ _ _ Hc). cbn [for_loop take existsb].
    unfold bind at 1 2. rewrite array_get_nat, Hc. cbn [lift_opt]. unfold ret at 1.
    destruct (exceeds_dos_threshold WINDOW_SIZE c); [reflexivity|].
    unfold ret at 1. replace (Z.of_nat i + 1) with (Z.of_nat (S i)) by lia.
    rewrite IH by lia. reflexivity.
Qed.

Lemma check_dos_spec (msg : CANMessage) (ms : list CANMessage) (s : IDS) :
  check_dos msg (histogram ms) s =
  if flood ms
  then Some (Return tt, set_uart_alerts (uart_alerts s ++ [(ALERT_DOS_DETECTED, msg)]) s)
  else Some (Next, s).
Proof.
  unfold check_dos, flood. change 0 with (Z.of_nat 0).
  assert (Hlen : length (histogram ms) = 256%nat)
    by (unfold histogram; by rewrite length_fmap, length_seq).
  rewrite check_dos_loop by (rewrite Hlen; lia).
  rewrite drop_0, take_ge by lia. reflexivity.
Qed.

(** A frame that passed the classifier is admitted to the window, and the
    flood stage follows. *)
Lemma CAN_MessageReceived_admitted (msg : CANMessage) (s : IDS) :
  detect_anomaly msg s = Some (false, s) ->
  wf_window s ->
  WINDOW_SIZE < 2 ^ 32 ->
  CAN_MessageReceived msg s = Some (tt, admit_state msg s).
Proof.
  intros Hd [Hlen Hidx] Hsmall.
  unfold CAN_MessageReceived. unfold bind at 1. rewrite Hd.
  destruct s as [bs n [ms idx cnt] al]. cbn in Hlen, Hidx.
  unfold bind at 1. unfold gets at 1. cbn [window index].
  unfold bind at 1. unfold store_window_message, bind, gets at 1. cbn [window messages].
  rewrite array_set_Z by lia. cbn [lift_opt]. unfold ret at 1. unfold modify at 1.
  replace (WINDOW_SIZE =? 0) with false by (symmetry; apply Z.eqb_neq; lia).
  unfold modify at 1. unfold modify at 1. unfold gets at 1.
  unfold admit_state, dos_raised, window_push.
  cbv [set_window set_messages set_index set_count set_uart_alerts
       window baselines baseline_count uart_alerts messages index count].
  destruct ((cnt + 1) `mod` COUNT_MODULUS >=? WINDOW_SIZE); [|reflexivity].
  rewrite count_ids_spec by (cbn; (by rewrite length_insert) || lia).
  cbv [window messages]. rewrite check_dos_spec. cbn [andb].
  destruct (flood (<[Z.to_nat idx:=msg]> ms)); reflexivity.
Qed.

(** C8: a frame that the classifier flags is reported and nothing else
    happens.  Whenever [detect_anomaly] returns [true], [CAN_MessageReceived]
    returns after one [ALERT_ANOMALY_DETECTED] alert for the frame; the ring,
    the cursor, the counter of admitted frames and the baseline store are the
    same after the call as before it. *)
Theorem anomalous_frame_not_admitted (msg : CANMessage) (s s' : IDS) :
  detect_anomaly msg s = Some (true, s') ->
  exists s1, CAN_MessageReceived msg s = Some (tt, s1) /\
    messages (window s1) = messages (window s) /\
    index (window s1) = index (window s) /\
    count (window s1) = count (window s) /\
    baselines s1 = baselines s /\
    baseline_count s1 = baseline_count s /\
    uart_alerts s1 = uart_alerts s ++ [(ALERT_ANOMALY_DETECTED, msg)].
Proof.
  intros Hd.
  assert (s' = s) as ->
    by (eapply store_reader_read_only; [apply store_reader_detect_anomaly | exact Hd]).
  eexists. split.
  - unfold CAN_MessageReceived. unfold bind. rewrite Hd. reflexivity.
  - by repeat split.
Qed.

(** ** The ring *)

(** Admitting a frame overwrites the oldest frame of the ring. *)
Lemma admit_ring (f : CANMessage) (w : MessageWindow) (L : list CANMessage) :
  ring_holds w L -> ring_holds (window_push f w) (drop 1 L ++ [f]).
Proof.
  unfold ring_holds. intros (r & Hi & Hr & HL & Hm).
  destruct L as [|x L0]; [cbn in HL; lia|]. cbn in HL.
  set (Wn := Z.to_nat WINDOW_SIZE) in *.
  assert (HW : WINDOW_SIZE = Z.of_nat Wn) by lia.
  clearbody Wn. change (drop 1 (x :: L0)) with (drop 0 L0). rewrite drop_0.
  assert (HL' : length (L0 ++ [f]) = Wn) by (rewrite length_app; cbn; lia).
  destruct (decide (S r < Wn)%nat) as [Hlt|Hge].
  - exists (S r). unfold window_push. cbn [index messages]. rewrite Hi, Nat2Z.id.
    split; [rewrite Z.rem_small by lia; lia|]. split; [done|].
    split; [done|].
    rewrite Hm. replace (Wn - r)%nat with (S (Wn - S r)) by lia.
    rewrite skipn_cons, firstn_cons.
    rewrite insert_app_r_alt by (rewrite length_drop; lia).
    rewrite length_drop.
    replace (r - (length L0 - (Wn - S r)))%nat with 0%nat by lia. cbn [insert list_insert].
    rewrite drop_app_le by lia. rewrite take_app_le by lia.
    by rewrite <- app_assoc.
  - exists 0%nat. unfold window_push. cbn [index messages]. rewrite Hi, Nat2Z.id.
    split; [|split; [lia|split; [done|]]].
    + replace (Z.of_nat r + 1) with WINDOW_SIZE by lia.
      rewrite Z.rem_same by lia. done.
    + rewrite Hm. replace (Wn - r)%nat with 1%nat by lia.
      rewrite skipn_cons, firstn_cons, drop_0, take_0.
      rewrite insert_app_r_alt by lia.
      replace (r - length L0)%nat with 0%nat by lia. cbn [insert list_insert].
      rewrite Nat.sub_0_r.
      rewrite drop_ge by lia. rewrite take_ge by lia. done.
Qed.

Lemma ring_holds_perm (w : MessageWindow) (L : list CANMessage) :
  ring_holds w L -> messages w ≡ₚ L.
Proof.
  intros (r & _ & _ & _ & ->). rewrite Permutation_app_comm. by rewrite take_drop.
Qed.

Lemma bucket_count_perm (l1 l2 : list CANMessage) (b : Z) :
  l1 ≡ₚ l2 -> bucket_count l1 b = bucket_count l2 b.
Proof. intros H. unfold bucket_count. by rewrite H. Qed.

Lemma flood_perm (l1 l2 : list CANMessage) : l1 ≡ₚ l2 -> flood l1 = flood l2.
Proof.
  intros H. unfold flood, histogram. f_equal.
  apply list_fmap_ext. intros _ b _. by rewrite (bucket_count_perm l1 l2).
Qed.

(** The flood test in terms of the bucket counts. *)
Lemma flood_true_iff (ms : list CANMessage) :
  flood ms = true <->
  exists b, 0 <= b < 256 /\
            exceeds_dos_threshold WINDOW_SIZE (Z.of_nat (bucket_count ms b)) = true.
Proof.
  unfold flood, histogram. rewrite existsb_exists. split.
  - intros (c & Hin & Hc). apply list_elem_of_In in Hin.
    apply list_elem_of_fmap in Hin as (b & -> & Hb).
    apply elem_of_seq in Hb. exists (Z.of_nat b). split; [lia|done].
  - intros (b & Hb & Hc). exists (Z.of_nat (bucket_count ms b)). split; [|done].
    apply list_elem_of_In, list_elem_of_fmap. exists (Z.to_nat b).
    rewrite Z2Nat.id by lia. split; [done|]. apply elem_of_seq. lia.
Qed.

Lemma admit_state_same_store (f : CANMessage) (s : IDS) :
  same_store s (admit_state f s).
Proof. unfold admit_state. by destruct (dos_raised _). Qed.

Lemma admit_state_window (f : CANMessage) (s : IDS) :
  window (admit_state f s) = window_push f (window s).
Proof. unfold admit_state. by destruct (dos_raised _). Qed.

Lemma admit_state_wf_window (f : CANMessage) (s : IDS) :
  wf_window s -> wf_window (admit_state f s).
Proof.
  intros [Hlen Hidx]. unfold wf_window. rewrite admit_state_window.
  unfold window_push. cbn. rewrite length_insert. split; [done|].
  apply Z.rem_bound_pos; lia.
Qed.

(** A run of frames that pass the classifier is a run of admissions. *)
Lemma receive_all_spec (fs : list CANMessage) :
  forall s : IDS,
    Forall (fun f => detect_anomaly f s = Some (false, s)) fs ->
    wf_window s ->
    WINDOW_SIZE < 2 ^ 32 ->
    receive_all fs s = Some (tt, admit_all fs s).
Proof.
  induction fs as [|f fs IH]; intros s Hfs Hwf Hsmall; [reflexivity|].
  apply Forall_cons in Hfs as [Hf Hfs]. cbn [receive_all admit_all].
  erewrite bind_eval by (by apply CAN_MessageReceived_admitted).
  apply IH; [|by apply admit_state_wf_window|done].
  eapply Forall_impl; [exact Hfs|]. intros f' Hf'. cbn in Hf'.
  rewrite (store_reader_detect_anomaly f' s (admit_state f s))
    by apply admit_state_same_store.
  by rewrite Hf'.
Qed.

Lemma ring_holds_fresh (w : MessageWindow) :
  length (messages w) = Z.to_nat WINDOW_SIZE ->
  0 < WINDOW_SIZE ->
  index w = 0 ->
  ring_holds w (messages w).
Proof.
  intros Hlen Hpos Hi. exists 0%nat. split; [done|]. split; [lia|]. split; [done|].
  rewrite Nat.sub_0_r, drop_ge, take_ge by lia. done.
Qed.

Lemma admit_state_ring (f : CANMessage) (s : IDS) (ms0 hist : list CANMessage) :
  length ms0 = Z.to_nat WINDOW_SIZE ->
  ring_holds (window s) (drop (length hist) (ms0 ++ hist)) ->
  ring_holds (window (admit_state f s))
             (drop (length (hist ++ [f])) (ms0 ++ hist ++ [f])).
Proof.
  intros Hms0 Hring. rewrite admit_state_window.
  assert (HW : (0 < Z.to_nat WINDOW_SIZE)%nat)
    by (destruct Hring as (r & _ & Hr & _); lia).
  apply (admit_ring f) in Hring. rewrite drop_drop in Hring.
  rewrite length_app, app_assoc. cbn [length].
  rewrite (drop_app_le (ms0 ++ hist)) by (rewrite length_app; lia).
  done.
Qed.

(** A run of admissions raises no alert when, at every step, either the
    counter is still below the capacity or the last [WINDOW_SIZE] frames do
    not trip the flood test.  [hist] are the frames admitted before the run
    to a window that was fresh (cursor and counter zero, contents [ms0]). *)
Lemma admit_all_quiet (ms0 : list CANMessage) :
  0 < COUNT_MODULUS ->
  length ms0 = Z.to_nat WINDOW_SIZE ->
  forall (fs hist : list CANMessage) (s : IDS),
    ring_holds (window s) (drop (length hist) (ms0 ++ hist)) ->
    count (window s) = Z.of_nat (length hist) mod COUNT_MODULUS ->
    (forall n, (length hist < n <= length hist + length fs)%nat ->
       Z.of_nat n mod COUNT_MODULUS < WINDOW_SIZE \/
       ((Z.to_nat WINDOW_SIZE <= n)%nat /\
        flood (take (Z.to_nat WINDOW_SIZE)
                    (drop (n - Z.to_nat WINDOW_SIZE) (hist ++ fs))) = false)) ->
    uart_alerts (admit_all fs s) = uart_alerts s /\
    same_store s (admit_all fs s) /\
    ring_holds (window (admit_all fs s))
               (drop (length (hist ++ fs)) (ms0 ++ hist ++ fs)) /\
    count (window (admit_all fs s)) = Z.of_nat (length (hist ++ fs)) mod COUNT_MODULUS.
Proof.
  intros HM Hms0. induction fs as [|f fs IH]; intros hist s Hring Hcnt Hq.
  - cbn [admit_all]. rewrite app_nil_r. split; [done|]. split; [apply same_store_refl|done].
  - cbn [admit_all].
    pose proof (admit_state_ring f s ms0 hist Hms0 Hring) as Hring1.
    assert (Hcnt1 : count (window (admit_state f s)) =
                    Z.of_nat (length (hist ++ [f])) mod COUNT_MODULUS).
    { rewrite admit_state_window. cbn. rewrite Hcnt, length_app. cbn [length].
      rewrite Z.add_mod_idemp_l by lia. f_equal. lia. }
    assert (Hno : dos_raised (window_push f (window s)) = false).
    { unfold dos_raised. rewrite <- admit_state_window.
      destruct (Hq (S (length hist))) as [Hlow|[Hge Hfl]]; [cbn [length]; lia| |].
      - replace (count (window (admit_state f s)) >=? WINDOW_SIZE) with false; [done|].
        symmetry. rewrite Z.geb_leb. apply Z.leb_gt. rewrite Hcnt1, length_app. cbn [length].
        replace (Z.of_nat (length hist + 1)) with (Z.of_nat (S (length hist))) by lia.
        done.
      - apply andb_false_intro2. rewrite <- Hfl. apply flood_perm.
        rewrite (ring_holds_perm _ _ Hring1).
        rewrite length_app. cbn [length].
        rewrite drop_app_ge by lia.
        replace (length hist + 1 - length ms0)%nat
          with (S (length hist) - Z.to_nat WINDOW_SIZE)%nat by lia.
        replace (hist ++ f :: fs) with ((hist ++ [f]) ++ fs)
          by (by rewrite <- app_assoc).
        rewrite (drop_app_le (hist ++ [f])) by (rewrite length_app; cbn; lia).
        rewrite take_app_ge by (rewrite length_drop, length_app; cbn; lia).
        replace (Z.to_nat WINDOW_SIZE -
                 length (drop (S (length hist) - Z.to_nat WINDOW_SIZE) (hist ++ [f])))%nat
          with 0%nat by (rewrite length_drop, length_app; cbn; lia).
        by rewrite take_0, app_nil_r. }
    assert (Hal : uart_alerts (admit_state f s) = uart_alerts s)
      by (unfold admit_state; by rewrite Hno).
    destruct (IH (hist ++ [f]) (admit_state f s) Hring1 Hcnt1) as (Ha & Hs & Hr & Hc).
    { intros n Hn. rewrite length_app in Hn. cbn [length] in Hn.
      rewrite <- app_assoc. cbn [app]. apply Hq. cbn [length]. lia. }
    rewrite <- !app_assoc in Hr, Hc. cbn [app] in Hr, Hc.
    split; [by rewrite Ha|]. split; [|done].
    destruct Hs as [Hs1 Hs2]. destruct (admit_state_same_store f s) as [Hs3 Hs4].
    split; congruence.
Qed.

(** In a list whose matches are at least three positions apart, at most
    every third element matches. *)
Lemma spaced_filter_length {A : Type} (P : A -> Prop) `{!forall x, Decision (P x)} :
  forall l : list A,
    (forall i j x y, l !! i = Some x -> l !! j = Some y -> P x -> P y ->
                     (i < j)%nat -> (i + 3 <= j)%nat) ->
    (3 * length (filter P l) <= length l + 2)%nat.
Proof.
  intros l. remember (length l) as n eqn:Hn. revert l Hn.
  induction n as [n IH] using lt_wf_ind. intros l -> Hsp.
  destruct l as [|x l]; [cbn; lia|].
  rewrite filter_cons. destruct (decide (P x)) as [Hx|Hx].
  - destruct l as [|y l]; [cbn; lia|].
    assert (Hy : ~ P y)
      by (intros Hy; specialize (Hsp 0%nat 1%nat x y eq_refl eq_refl Hx Hy); lia).
    rewrite filter_cons, decide_False by done.
    destruct l as [|z l]; [cbn; lia|].
    assert (Hz : ~ P z)
      by (intros Hz; specialize (Hsp 0%nat 2%nat x z eq_refl eq_refl Hx Hz); lia).
    rewrite filter_cons, decide_False by done.
    specialize (IH (length l) ltac:(cbn; lia) l eq_refl).
    cbn [length]. cut (3 * length (filter P l) <= length l + 2)%nat; [lia|].
    apply IH. intros i j x' y' Hi Hj Hx' Hy' Hlt.
    specialize (Hsp (S (S (S i))) (S (S (S j))) x' y' Hi Hj Hx' Hy'). lia.
  - specialize (IH (length l) ltac:(cbn; lia) l eq_refl).
    cbn [length]. cut (3 * length (filter P l) <= length l + 2)%nat; [lia|].
    apply IH. intros i j x' y' Hi Hj Hx' Hy' Hlt.
    specialize (Hsp (S i) (S j) x' y' Hi Hj Hx' Hy'). lia.
Qed.

Lemma same_residue_apart (a c k : nat) :
  (a < c)%nat -> (a mod k = c mod k)%nat -> (a + k <= c)%nat.
Proof.
  intros Hlt Hmod. destruct k as [|k]; [lia|].
  pose proof (Nat.div_mod_eq a (S k)) as Ha.
  pose proof (Nat.div_mod_eq c (S k)) as Hc.
  rewrite Hmod in Ha.
  set (qa := (a / S k)%nat) in *. set (qc := (c / S k)%nat) in *.
  set (rr := (c mod S k)%nat) in *.
  assert (Hq : (qa < qc)%nat).
  { destruct (decide (qa < qc)%nat) as [|Hge]; [done|].
    assert (S k * qc <= S k * qa)%nat by (apply Nat.mul_le_mono_l; lia). lia. }
  assert (S k * (qa + 1) <= S k * qc)%nat by (apply Nat.mul_le_mono_l; lia).
  lia.
Qed.

(** In a stretch of a round-robin over at least three identifiers with
    pairwise distinct low bytes, no bucket holds more than every third
    frame. *)
Lemma round_robin_bucket_bound (ids : list Z) (tot : list CANMessage) (o k : nat) (b : Z) :
  (3 <= length ids)%nat ->
  NoDup ((fun x => Z.land x 0xFF) <$> ids) ->
  round_robin ids tot ->
  (3 * bucket_count (take k (drop o tot)) b <= length (take k (drop o tot)) + 2)%nat.
Proof.
  intros Hk Hnd Hrr. unfold bucket_count.
  apply spaced_filter_length. intros i j x y Hi Hj Hx Hy Hlt.
  apply lookup_take_Some in Hi as [Hi _]. apply lookup_take_Some in Hj as [Hj _].
  rewrite lookup_drop in Hi, Hj.
  apply Hrr in Hi, Hj.
  assert (Hi' : ((fun x => Z.land x 0xFF) <$> ids) !! ((o + i) mod length ids)%nat = Some b)
    by (rewrite list_lookup_fmap, Hi; cbn; f_equal; exact Hx).
  assert (Hj' : ((fun x => Z.land x 0xFF) <$> ids) !! ((o + j) mod length ids)%nat = Some b)
    by (rewrite list_lookup_fmap, Hj; cbn; f_equal; exact Hy).
  pose proof (NoDup_lookup _ _ _ _ Hnd Hi' Hj') as Heq.
  pose proof (same_residue_apart (o + i) (o + j) (length ids) ltac:(lia) Heq). lia.
Qed.

Lemma admit_all_app (l1 l2 : list CANMessage) (s : IDS) :
  admit_all (l1 ++ l2) s = admit_all l2 (admit_all l1 s).
Proof. revert s. induction l1 as [|f l1 IH]; intros s; cbn; [done|apply IH]. Qed.


(** Frames of one identifier all fall into the bucket of its low byte. *)
Lemma bucket_count_uniform (l : list CANMessage) (a b : Z) :
  Forall (fun f => can_id f = a) l ->
  bucket_count l b = if decide (Z.land a 0xFF = b) then length l else 0%nat.
Proof.
  unfold bucket_count. induction 1 as [|f l Hf Hl IH].
  - by destruct (decide _).
  - rewrite filter_cons.
    assert (Hh : id_hash f = Z.land a 255) by (unfold id_hash; by rewrite Hf).
    destruct (decide (Z.land a 255 = b)) as [Heq|Hne].
    + rewrite decide_True by congruence. cbn [length]. by rewrite IH.
    + rewrite decide_False by congruence. done.
Qed.

(** A fresh window filled by [WINDOW_SIZE] admissions: the ring holds exactly
    these frames, and the only alert that can be raised is the one of the
    flood test on them, at the last frame. *)
Lemma admit_all_fill (s : IDS) (fs0 : list CANMessage) (fl : CANMessage) :
  wf_window s ->
  index (window s) = 0 ->
  count (window s) = 0 ->
  WINDOW_SIZE < COUNT_MODULUS ->
  length (fs0 ++ [fl]) = Z.to_nat WINDOW_SIZE ->
  uart_alerts (admit_all (fs0 ++ [fl]) s) =
  uart_alerts s ++ (if flood (fs0 ++ [fl]) then [(ALERT_DOS_DETECTED, fl)] else []).
Proof.
  intros [Hlen Hidx] Hi Hc HM Hfs. rewrite length_app in Hfs. cbn [length] in Hfs.
  set (ms0 := messages (window s)) in *.
  destruct (admit_all_quiet ms0 ltac:(lia) Hlen fs0 [] s) as (Ha & Hs & Hr & Hcnt).
  - rewrite app_nil_r. cbn [length]. rewrite drop_0. apply ring_holds_fresh; [done|lia|done].
  - by rewrite Hc.
  - intros n Hn. cbn [length] in Hn. left. rewrite Z.mod_small by lia. lia.
  - cbn [app] in Hr, Hcnt. rewrite admit_all_app. cbn [admit_all].
    set (s1 := admit_all fs0 s) in *.
    pose proof (admit_state_ring fl s1 ms0 fs0 Hlen Hr) as Hring.
    rewrite drop_app_length' in Hring by (rewrite length_app; cbn [length]; lia).
    unfold admit_state. unfold dos_raised.
    replace (count (window_push fl (window s1)) >=? WINDOW_SIZE) with true.
    + rewrite <- admit_state_window, (flood_perm _ _ (ring_holds_perm _ _ Hring)).
      cbn [andb]. destruct (flood (fs0 ++ [fl])); cbn; by rewrite ?Ha, ?app_nil_r.
    + symmetry. rewrite Z.geb_leb. apply Z.leb_le. cbn. rewrite Hcnt.
      rewrite Z.add_mod_idemp_l by lia. rewrite Z.mod_small by lia. lia.
Qed.


(** C5, as the code has it.  From a fresh window of a capacity between 1
    and 256, [WINDOW_SIZE] frames that pass the classifier and carry one
    identifier raise [ALERT_DOS_DETECTED] at the frame that fills the ring.
    A uniform round-robin of three or more identifiers never raises it, for
    every capacity from 2 on and every length of the run, provided the
    identifiers differ in their low eight bits: the histogram is keyed by
    [can_id & 0xFF], so identifiers that only differ above bit 7 share a
    bucket. *)
Theorem window_flood_law (s : IDS) :
  wf_window s ->
  index (window s) = 0 ->
  count (window s) = 0 ->
  1 <= WINDOW_SIZE <= 256 ->
  WINDOW_SIZE < COUNT_MODULUS ->
  (forall fs a,
     length fs = Z.to_nat WINDOW_SIZE ->
     Forall (fun f => can_id f = a) fs ->
     Forall (fun f => detect_anomaly f s = Some (false, s)) fs ->
     exists s' fl, receive_all fs s = Some (tt, s') /\ last fs = Some fl /\
       uart_alerts s' = uart_alerts s ++ [(ALERT_DOS_DETECTED, fl)]) /\
  (forall ids fs,
     2 <= WINDOW_SIZE ->
     (3 <= length ids)%nat ->
     NoDup ((fun x => Z.land x 0xFF) <$> ids) ->
     round_robin ids fs ->
     Forall (fun f => detect_anomaly f s = Some (false, s)) fs ->
     exists s', receive_all fs s = Some (tt, s') /\ uart_alerts s' = uart_alerts s).
Proof.
  intros Hwf Hi Hc HW HM. split.
  - intros fs a Hlen Hsame Hadm.
    assert (Hrun : receive_all fs s = Some (tt, admit_all fs s))
      by (apply receive_all_spec; [done|done|lia]).
    destruct fs as [|fl fs0] using rev_ind; [cbn in Hlen; lia|]. clear IHfs0.
    exists (admit_all (fs0 ++ [fl]) s), fl.
    split; [done|]. split; [apply last_snoc|].
    rewrite (admit_all_fill s fs0 fl) by done.
    replace (flood (fs0 ++ [fl])) with true; [done|].
    symmetry. apply flood_true_iff. exists (Z.land a 0xFF).
    split; [apply (id_hash_range (mkCANMessage a 0 [] 0))|].
    rewrite (bucket_count_uniform _ a) by done.
    rewrite decide_True by done. rewrite Hlen, Z2Nat.id by lia.
    destruct (exceeds_dos_threshold_bounds WINDOW_SIZE WINDOW_SIZE) as [Hhi _];
      [unfold MAX_CHECKED_WINDOW; lia|lia|]. apply Hhi. lia.
  - intros ids fs HW2 Hk Hnd Hrr Hadm.
    exists (admit_all fs s).
    split; [apply receive_all_spec; [done|done|lia]|].
    destruct Hwf as [Hlen Hidx].
    destruct (admit_all_quiet (messages (window s)) ltac:(lia) Hlen fs [] s)
      as (Ha & _).
    + rewrite app_nil_r. cbn [length]. rewrite drop_0.
      apply ring_holds_fresh; [done|lia|done].
    + by rewrite Hc.
    + intros n Hn. cbn [length app] in *.
      destruct (decide (n < Z.to_nat WINDOW_SIZE)%nat) as [Hlt|Hge].
      * left. pose proof (Z.mod_le (Z.of_nat n) COUNT_MODULUS ltac:(lia) ltac:(lia)). lia.
      * right. split; [lia|].
        apply not_true_is_false. intros Hf.
        apply flood_true_iff in Hf as (b & Hb & Hf).
        pose proof (round_robin_bucket_bound ids fs (n - Z.to_nat WINDOW_SIZE)
                      (Z.to_nat WINDOW_SIZE) b Hk Hnd Hrr) as Hbound.
        set (seg := take (Z.to_nat WINDOW_SIZE) (drop (n - Z.to_nat WINDOW_SIZE) fs)) in *.
        assert (Hseg : (length seg <= Z.to_nat WINDOW_SIZE)%nat)
          by (unfold seg; rewrite length_take; lia).
        pose proof (bucket_count_le seg b) as Hle.
        destruct (exceeds_dos_threshold_bounds WINDOW_SIZE (Z.of_nat (bucket_count seg b)))
          as [_ Hlow]; [unfold MAX_CHECKED_WINDOW; lia|lia|].
        rewrite Hlow in Hf by lia. discriminate.
    + done.
Qed.

End Engine.

(** * A concrete engine

    [sensors.h] is not part of the sources at hand, so the values of the
    [RANGE_*] constants and of [WINDOW_SIZE] are not known.  The examples
    below run the engine on a table of six ranges whose first one is the
    temperature range that the comments of [detect_anomaly] name, with a ring
    of ten slots and a 32-bit counter. *)

Definition example_ranges : list IdRange :=
  [ mkIdRange 0x300 0x399; mkIdRange 0x400 0x499; mkIdRange 0x500 0x599;
    mkIdRange 0x600 0x699; mkIdRange 0x700 0x70F; mkIdRange 0x710 0x71F ].

Definition example_window_size : Z := 10.
Definition example_count_modulus : Z := 2 ^ 32.

(** A frame with identifier [ident], one declared byte and first payload
    byte [v]. *)
Definition frame (ident v : Z) : CANMessage :=
  mkCANMessage ident 1 [v; 0; 0; 0; 0; 0; 0; 0] 0.

Definition s0 : IDS := initial_state example_window_size.

(** The store after the frame [0x300, dlc = 1, payload 25] was learned. *)
Definition learned_0x300 : BaselinePattern :=
  mkBaselinePattern 0x300 1 [25; 0; 0; 0; 0; 0; 0; 0].
Definition s1 : IDS :=
  mkIDS (learned_0x300 :: replicate 99 zero_baseline) 1 (window s0) [].

(** One hundred frames with the identifiers 0x300 .. 0x363. *)
Definition hundred_frames : list CANMessage :=
  (fun i => frame (0x300 + Z.of_nat i) 25) <$> seq 0 100.


(** A round-robin over three identifiers that differ above bit 7 only, and
    one over three identifiers with distinct low bytes. *)
Definition alias_ids : list Z := [0x321; 0x421; 0x521].
Definition alias_round_robin : list CANMessage :=
  (fun t => frame (default 0 (alias_ids !! (t mod 3)%nat)) 25) <$> seq 0 10.
Definition plain_ids : list Z := [0x321; 0x322; 0x323].
Definition plain_round_robin : list CANMessage :=
  (fun t => frame (default 0 (plain_ids !! (t mod 3)%nat)) 25) <$> seq 0 12.

Lemma s0_wf_baselines : wf_baselines s0.
Proof.
  split; [reflexivity|]. split; [unfold BASELINE_CAPACITY; cbn; lia|].
  apply Forall_replicate. reflexivity.
Qed.

Lemma s1_wf_baselines : wf_baselines s1.
Proof.
  split; [reflexivity|]. split; [unfold BASELINE_CAPACITY; cbn; lia|].
  apply Forall_cons. split; [reflexivity|]. apply Forall_replicate. reflexivity.
Qed.

Lemma s0_wf_window : wf_window example_window_size s0.
Proof. split; [reflexivity|]. cbn. unfold example_window_size. lia. Qed.

Lemma unknown_identifier_is_anomaly_witness :
  id_in_ranges example_ranges 0x050 = false /\
  detect_anomaly example_ranges (frame 0x050 25) s1 = Some (true, s1).
Proof.
  apply (unknown_identifier_is_anomaly example_ranges (frame 0x050 25) s1).
  apply id_in_ranges_from_false. reflexivity.
Defined.

Lemma dlc_check_fires_only_on_mismatch_witness :
  detect_anomaly example_ranges (mkCANMessage 0x300 2 [25; 1; 0; 0; 0; 0; 0; 0] 0) s1 =
    Some (true, s1) /\
  dlc_mismatch (frame 0x300 25) s1 = Some (false, s1) /\
  dlc_mismatch (frame 0x301 25) s1 = Some (false, s1).
Proof.
  split; [|split].
  - destruct (dlc_check_fires_only_on_mismatch example_ranges
                (mkCANMessage 0x300 2 [25; 1; 0; 0; 0; 0; 0; 0] 0) s1) as (H & _ & _);
      [cbn; lia | reflexivity |].
    apply (H 0%nat learned_0x300); [reflexivity | cbn; lia].
  - destruct (dlc_check_fires_only_on_mismatch example_ranges (frame 0x300 25) s1)
      as (_ & H & _); [cbn; lia | reflexivity |].
    apply (H 0%nat learned_0x300); reflexivity.
  - destruct (dlc_check_fires_only_on_mismatch example_ranges (frame 0x301 25) s1)
      as (_ & _ & H); [cbn; lia | reflexivity |].
    apply H. intros j e Hj He. cbn in Hj.
    assert (j = 0%nat) as -> by lia. cbn in He. injection He as <-. cbn. lia.
Defined.

Lemma temperature_payload_check_witness :
  payload_out_of_range (frame 0x300 120) s0 = Some (false, s0) /\
  detect_anomaly example_ranges (frame 0x300 130) s0 = Some (true, s0).
Proof.
  split.
  - destruct (temperature_payload_check example_ranges (frame 0x300 120) s0 120)
      as (H & _); [cbn; lia | reflexivity |].
    apply H. lia.
  - destruct (temperature_payload_check example_ranges (frame 0x300 130) s0 130)
      as (_ & _ & _ & H); [cbn; lia | reflexivity |].
    apply H; [reflexivity | cbn; lia | reflexivity | lia].
Defined.

Lemma detect_anomaly_read_only_deterministic_witness :
  exists b, detect_anomaly example_ranges (frame 0x300 25) s1 = Some (b, s1) /\
    forall s2, baselines s2 = baselines s1 ->
               baseline_count s2 = baseline_count s1 ->
               detect_anomaly example_ranges (frame 0x300 25) s2 = Some (b, s2).
Proof.
  apply (detect_anomaly_read_only_deterministic example_ranges (frame 0x300 25) s1).
  - exact s1_wf_baselines.
  - reflexivity.
Defined.

Lemma learn_idempotent_and_dlc_only_witness :
  (exists s, learn_baseline (frame 0x300 25) s0 = Some (tt, s) /\
             learn_baseline (frame 0x300 25) s = Some (tt, s)) /\
  (exists s, learn_baseline (mkCANMessage 0x300 2 [7; 7; 0; 0; 0; 0; 0; 0] 0) s1 =
               Some (tt, s) /\
     baselines s !! 0%nat = Some (mkBaselinePattern 0x300 2 [25; 0; 0; 0; 0; 0; 0; 0])).
Proof.
  split.
  - apply (learn_idempotent_and_dlc_only (frame 0x300 25) s0 s0_wf_baselines).
    reflexivity.
  - destruct (learn_idempotent_and_dlc_only
                (mkCANMessage 0x300 2 [7; 7; 0; 0; 0; 0; 0; 0] 0) s1 s1_wf_baselines)
      as [_ H].
    destruct (H 0%nat learned_0x300 eq_refl) as (s & Hs & H0 & _).
    exists s. split; [exact Hs | exact H0].
Defined.

(** Two frames of identifier 0x300 with one declared byte that differ in the
    payload bytes 1 to 7 and in the time stamp. *)
Definition padded_frame : CANMessage :=
  mkCANMessage 0x300 1 [25; 1; 2; 3; 4; 5; 6; 7] 0.
Definition plain_frame : CANMessage :=
  mkCANMessage 0x300 1 [25; 0; 0; 0; 0; 0; 0; 0] 9.

Lemma payload_bytes_read_witness :
  detect_anomaly example_ranges padded_frame s1 = Some (25 >? 120, s1) /\
  learn_baseline padded_frame s1 = learn_baseline plain_frame s1 /\
  (learn_baseline padded_frame s0 = learn_baseline plain_frame s0 <->
   data padded_frame = data plain_frame).
Proof.
  set (m1 := padded_frame). set (m2 := plain_frame).
  assert (Hlen : (Z.to_nat (baseline_count s1) <= length (baselines s1))%nat)
    by (cbn; lia).
  destruct (payload_bytes_read example_ranges m1 m2 s1 eq_refl eq_refl)
    as (_ & _ & Hread & _ & Hupdate & _).
  destruct (payload_bytes_read example_ranges m1 m2 s0 eq_refl eq_refl)
    as (_ & _ & _ & _ & _ & Hnew & _).
  split; [|split].
  - apply Hread; [exact Hlen | reflexivity | cbn; lia | | reflexivity].
    intros j e Hl. apply lookup_baseline_Some in Hl as (Hj & He & _).
    cbn in Hj. assert (j = 0%nat) as -> by lia. cbn in He. by injection He as <-.
  - apply Hupdate; [exact Hlen|]. left. discriminate.
  - apply Hnew; [exact s0_wf_baselines | reflexivity | reflexivity | reflexivity |].
    unfold BASELINE_CAPACITY. cbn. lia.
Defined.

Lemma baseline_capacity_law_witness :
  exists s, learn_all hundred_frames s0 = Some (tt, s) /\
    baseline_count s = 100 /\
    (forall x, x ∈ learned_ids s <-> x ∈ (can_id <$> hundred_frames)) /\
    lookup_baseline s 0x364 = None /\
    learn_baseline (frame 0x364 25) s = Some (tt, s).
Proof.
  apply (baseline_capacity_law hundred_frames (frame 0x364 25) s0).
  - exact s0_wf_baselines.
  - reflexivity.
  - apply Forall_fmap, Forall_forall. intros i _. reflexivity.
  - reflexivity.
  - vm_compute. reflexivity.
  - apply (bool_decide_unpack _). vm_compute. exact I.
Defined.

Lemma anomalous_frame_not_admitted_witness :
  exists s, CAN_MessageReceived example_ranges example_window_size example_count_modulus
              (frame 0x300 130) s0 = Some (tt, s) /\
    messages (window s) = messages (window s0) /\
    index (window s) = index (window s0) /\
    count (window s) = count (window s0) /\
    baselines s = baselines s0 /\
    baseline_count s = baseline_count s0 /\
    uart_alerts s = uart_alerts s0 ++ [(ALERT_ANOMALY_DETECTED, frame 0x300 130)].
Proof.
  apply (anomalous_frame_not_admitted example_ranges example_window_size
           example_count_modulus (frame 0x300 130) s0 s0).
  reflexivity.
Defined.




Lemma plain_round_robin_admissible :
  Forall (fun f => detect_anomaly example_ranges f s0 = Some (false, s0)) plain_round_robin.
Proof. repeat (apply Forall_cons; split; [reflexivity|]). apply Forall_nil_2. Qed.

Lemma plain_round_robin_spec : round_robin plain_ids plain_round_robin.
Proof.
  intros t f Hf.
  do 12 (destruct t as [|t]; [by injection Hf as <-|]). discriminate.
Qed.

Lemma window_flood_law_witness :
  (exists s fl,
     receive_all example_ranges example_window_size example_count_modulus
       (replicate 10 (frame 0x321 25)) s0 = Some (tt, s) /\
     last (replicate 10 (frame 0x321 25)) = Some fl /\
     uart_alerts s = uart_alerts s0 ++ [(ALERT_DOS_DETECTED, fl)]) /\
  (exists s,
     receive_all example_ranges example_window_size example_count_modulus
       plain_round_robin s0 = Some (tt, s) /\
     uart_alerts s = uart_alerts s0).
Proof.
  destruct (window_flood_law example_ranges example_window_size example_count_modulus
              s0 s0_wf_window eq_refl eq_refl) as [Hsame Hrr].
  - unfold example_window_size. lia.
  - unfold example_window_size, example_count_modulus. lia.
  - split.
    + apply (Hsame (replicate 10 (frame 0x321 25)) 0x321 eq_refl).
      * repeat (apply Forall_cons; split; [reflexivity|]). apply Forall_nil_2.
      * repeat (apply Forall_cons; split; [reflexivity|]). apply Forall_nil_2.
    + apply (Hrr plain_ids plain_round_robin).
      * unfold example_window_size. lia.
      * cbn. lia.
      * apply (bool_decide_unpack _). vm_compute. exact I.
      * exact plain_round_robin_spec.
      * exact plain_round_robin_admissible.
Defined.

(** ** Where the code departs from the specification *)


(** C5, a round-robin over three distinct identifiers that pass the
    firewall: 0x321, 0x421 and 0x521 share the bucket 0x21, which holds all
    ten frames of the full ring, and the tenth frame raises
    [ALERT_DOS_DETECTED]. *)
Lemma aliased_round_robin_raises_alert :
  NoDup alias_ids /\
  round_robin alias_ids alias_round_robin /\
  Forall (fun f => detect_anomaly example_ranges f s0 = Some (false, s0)) alias_round_robin /\
  exists s,
    receive_all example_ranges example_window_size example_count_modulus
      alias_round_robin s0 = Some (tt, s) /\
    uart_alerts s = [(ALERT_DOS_DETECTED, frame 0x321 25)].
Proof.
  split; [apply (bool_decide_unpack _); vm_compute; exact I|].
  split.
  { intros t f Hf. do 10 (destruct t as [|t]; [by injection Hf as <-|]). discriminate. }
  split.
  { repeat (apply Forall_cons; split; [reflexivity|]). apply Forall_nil_2. }
  eexists. split; [vm_compute; reflexivity|]. reflexivity.
Qed.

(** C9, two pairs of frames that agree on identifier, DLC and the first DLC
    payload bytes.  With DLC 0 the classifier still reads byte 0: 130 is an
    anomaly, 0 is not.  With DLC 1 learning copies all eight bytes: the two
    stores differ in the learned pattern. *)
Lemma bytes_beyond_dlc_are_read :
  let a1 := mkCANMessage 0x300 0 [130; 0; 0; 0; 0; 0; 0; 0] 0 in
  let a2 := mkCANMessage 0x300 0 [0; 0; 0; 0; 0; 0; 0; 0] 0 in
  let b1 := mkCANMessage 0x300 1 [25; 0; 0; 0; 0; 0; 0; 0] 0 in
  let b2 := mkCANMessage 0x300 1 [25; 99; 0; 0; 0; 0; 0; 0] 0 in
  (can_id a1 = can_id a2 /\ dlc a1 = dlc a2 /\
   take (Z.to_nat (dlc a1)) (data a1) = take (Z.to_nat (dlc a2)) (data a2) /\
   detect_anomaly example_ranges a1 s0 = Some (true, s0) /\
   detect_anomaly example_ranges a2 s0 = Some (false, s0)) /\
  (can_id b1 = can_id b2 /\ dlc b1 = dlc b2 /\
   take (Z.to_nat (dlc b1)) (data b1) = take (Z.to_nat (dlc b2)) (data b2) /\
   learn_baseline b1 s0 <> learn_baseline b2 s0).
Proof.
  cbv zeta. split.
  - repeat split; reflexivity.
  - split; [reflexivity|]. split; [reflexivity|]. split; [reflexivity|].
    vm_compute. discriminate.
Qed.

(** * Further properties of the engine *)

Section Coverage.

Variable idRanges : list IdRange.
Variable WINDOW_SIZE : Z.
Variable COUNT_MODULUS : Z.

(** ** The baseline store under [learn_baseline] *)

Lemma learn_result_frame (msg : CANMessage) (s : IDS) :
  window (learn_result msg s) = window s /\
  uart_alerts (learn_result msg s) = uart_alerts s /\
  length (baselines (learn_result msg s)) = length (baselines s).
Proof.
  unfold learn_result.
  destruct (lookup_baseline s (can_id msg)) as [[j e]|].
  - cbn. by rewrite length_insert.
  - destruct (baseline_count s <? BASELINE_CAPACITY); [|done].
    cbn. by rewrite length_insert.
Qed.

Lemma list_find_insert_neither {A : Type} (P : A -> Prop) `{!forall x, Decision (P x)}
    (l : list A) (j : nat) (x y : A) :
  l !! j = Some x -> ~ P x -> ~ P y ->
  list_find P (<[j := y]> l) = list_find P l.
Proof.
  revert j. induction l as [|a l IH]; intros j Hj Hx Hy; [done|].
  destruct j as [|j]; cbn in *.
  - injection Hj as ->. by rewrite !decide_False by done.
  - destruct (decide (P a)); [done|]. f_equal. by apply IH.
Qed.

Lemma list_find_snoc_not {A : Type} (P : A -> Prop) `{!forall x, Decision (P x)}
    (l : list A) (y : A) :
  ~ P y -> list_find P (l ++ [y]) = list_find P l.
Proof.
  intros Hy. induction l as [|a l IH]; cbn.
  - by rewrite decide_False by done.
  - destruct (decide (P a)); [done|]. f_equal. exact IH.
Qed.

(** Learning a frame does not change what the table holds for any other
    identifier. *)
Lemma lookup_baseline_learn_other (msg : CANMessage) (s : IDS) (ident : Z) :
  wf_baselines s ->
  ident <> can_id msg ->
  lookup_baseline (learn_result msg s) ident = lookup_baseline s ident.
Proof.
  intros (Hlen & Hcnt & _) Hne. unfold BASELINE_CAPACITY in *.
  unfold learn_result.
  destruct (lookup_baseline s (can_id msg)) as [[j e]|] eqn:Hl.
  - apply lookup_baseline_Some in Hl as (Hj & He & Hid & _).
    unfold lookup_baseline. cbn. rewrite take_insert_lt by done.
    apply (list_find_insert_neither _ _ _ e).
    + by rewrite lookup_take_lt.
    + congruence.
    + cbn. congruence.
  - destruct (baseline_count s <? BASELINE_CAPACITY) eqn:Hfull; [|done].
    apply Z.ltb_lt in Hfull. unfold BASELINE_CAPACITY in Hfull.
    unfold lookup_baseline. cbn. rewrite Z.mod_small by lia.
    replace (Z.to_nat (baseline_count s + 1)) with (S (Z.to_nat (baseline_count s)))
      by lia.
    erewrite take_S_r by (apply list_lookup_insert_eq; lia).
    rewrite take_insert_ge by lia.
    apply list_find_snoc_not. cbn. congruence.
Qed.

(** X1: [learn_baseline] keeps the table in shape.  On a well-formed store
    whose learned identifiers are pairwise distinct it returns without a
    fault, the store is again well formed with pairwise distinct
    identifiers, the occupancy count stays or grows by one, and the window
    and the alert trace are not touched. *)
Theorem learn_baseline_keeps_invariants (msg : CANMessage) (s : IDS) :
  wf_baselines s -> wf_msg msg -> NoDup (learned_ids s) ->
  exists s', learn_baseline msg s = Some (tt, s') /\
    wf_baselines s' /\
    NoDup (learned_ids s') /\
    baseline_count s <= baseline_count s' <= baseline_count s + 1 /\
    window s' = window s /\
    uart_alerts s' = uart_alerts s.
Proof.
  intros Hwf Hmsg Hnd. exists (learn_result msg s).
  split; [by apply learn_baseline_spec|].
  split; [by apply learn_result_wf|].
  destruct (learn_result_frame msg s) as (Hw & Ha & _).
  destruct (learn_result_ids msg s Hwf) as
    [(_ & Hids & Hc)|[(Hnin & _ & Hids & Hc)|(_ & _ & Heq)]].
  - rewrite Hids, Hc. split; [done|]. split; [lia|done].
  - rewrite Hids, Hc. split; [|split; [lia|done]].
    apply NoDup_app. split; [done|]. split; [|apply NoDup_singleton].
    intros x Hx Hx'. apply list_elem_of_singleton in Hx'. by subst.
  - rewrite Heq. split; [done|]. split; [lia|done].
Qed.

(** X2: what was learned can be looked up.  When the identifier of the
    frame has an entry or the table has room, the scan of the table after
    [learn_baseline] finds an entry for the identifier whose expected length
    is the DLC of the frame.  A new entry sits at the old occupancy count and
    carries the payload of the frame as its pattern; an entry that existed
    keeps its position and its pattern. *)
Theorem learn_then_lookup (msg : CANMessage) (s : IDS) :
  wf_baselines s -> wf_msg msg ->
  lookup_baseline s (can_id msg) <> None \/ baseline_count s < BASELINE_CAPACITY ->
  exists s' j e,
    learn_baseline msg s = Some (tt, s') /\
    lookup_baseline s' (can_id msg) = Some (j, e) /\
    bl_can_id e = can_id msg /\
    bl_dlc e = dlc msg /\
    (lookup_baseline s (can_id msg) = None ->
     j = Z.to_nat (baseline_count s) /\ expected_pattern e = data msg) /\
    (forall j0 e0, lookup_baseline s (can_id msg) = Some (j0, e0) ->
     j = j0 /\ expected_pattern e = expected_pattern e0).
Proof.
  intros Hwf Hmsg Hroom.
  destruct (lookup_baseline s (can_id msg)) as [[j0 e0]|] eqn:Hl.
  - exists (learn_result msg s), j0, (set_bl_dlc (dlc msg) e0).
    split; [by apply learn_baseline_spec|].
    assert (H1 : learn_result msg s =
                 set_baselines (<[j0 := set_bl_dlc (dlc msg) e0]> (baselines s)) s)
      by (unfold learn_result; by rewrite Hl).
    rewrite H1. split; [by apply lookup_baseline_updated|].
    apply lookup_baseline_Some in Hl as (_ & _ & Hid & _).
    split; [exact Hid|]. split; [done|]. split; [done|].
    intros j1 e1 [= <- <-]. done.
  - destruct Hroom as [Hne|Hroom]; [done|].
    eexists (learn_result msg s), _, _.
    split; [by apply learn_baseline_spec|].
    split; [by apply lookup_baseline_appended|].
    split; [done|]. split; [done|]. split; [done|]. intros j1 e1 [=].
Qed.

(** X3: learning one identifier leaves every other identifier alone: for an
    identifier other than the frame's, the scan of the table gives the same
    answer (the same entry at the same position, or none) after
    [learn_baseline] as before. *)
Theorem learn_leaves_other_identifiers (msg : CANMessage) (s : IDS) (ident : Z) :
  wf_baselines s -> wf_msg msg ->
  ident <> can_id msg ->
  exists s', learn_baseline msg s = Some (tt, s') /\
    lookup_baseline s' ident = lookup_baseline s ident.
Proof.
  intros Hwf Hmsg Hne. exists (learn_result msg s).
  split; [by apply learn_baseline_spec|]. by apply lookup_baseline_learn_other.
Qed.

(** X4: an entry, once created, is never removed, moved or given another
    pattern: whatever frame is learned next, the identifier is still found
    at the same position with the same expected pattern. *)
Theorem learned_entry_persists (msg : CANMessage) (s : IDS) (ident : Z)
    (j : nat) (e : BaselinePattern) :
  wf_baselines s -> wf_msg msg ->
  lookup_baseline s ident = Some (j, e) ->
  exists s' e', learn_baseline msg s = Some (tt, s') /\
    lookup_baseline s' ident = Some (j, e') /\
    bl_can_id e' = ident /\
    expected_pattern e' = expected_pattern e /\
    (ident <> can_id msg -> e' = e).
Proof.
  intros Hwf Hmsg Hl.
  pose proof Hl as (_ & _ & Hid & _)%lookup_baseline_Some.
  destruct (decide (ident = can_id msg)) as [->|Hne].
  - exists (learn_result msg s), (set_bl_dlc (dlc msg) e).
    split; [by apply learn_baseline_spec|].
    assert (H1 : learn_result msg s =
                 set_baselines (<[j := set_bl_dlc (dlc msg) e]> (baselines s)) s)
      by (unfold learn_result; by rewrite Hl).
    rewrite H1. split; [by apply lookup_baseline_updated|].
    split; [exact Hid|]. split; [done|]. intros Hne. done.
  - exists (learn_result msg s), e.
    split; [by apply learn_baseline_spec|].
    split; [by rewrite lookup_baseline_learn_other|]. done.
Qed.

Lemma learn_result_lookup (msg : CANMessage) (s : IDS) :
  wf_baselines s ->
  lookup_baseline s (can_id msg) <> None \/ baseline_count s < BASELINE_CAPACITY ->
  exists j e, lookup_baseline (learn_result msg s) (can_id msg) = Some (j, e) /\
              bl_dlc e = dlc msg.
Proof.
  intros Hwf Hroom.
  destruct (lookup_baseline s (can_id msg)) as [[j0 e0]|] eqn:Hl.
  - exists j0, (set_bl_dlc (dlc msg) e0).
    assert (H1 : learn_result msg s =
                 set_baselines (<[j0 := set_bl_dlc (dlc msg) e0]> (baselines s)) s)
      by (unfold learn_result; by rewrite Hl).
    rewrite H1. split; [by apply lookup_baseline_updated|done].
  - destruct Hroom as [Hne|Hroom]; [done|].
    eexists _, _. split; [by apply lookup_baseline_appended|done].
Qed.

(** X5: learning followed by classification.  After a frame was learned
    (its identifier had an entry or the table had room), the length check of
    [detect_anomaly] fires on a frame of the same identifier exactly when its
    DLC differs from the learned one; such a frame that passes the firewall
    is an anomaly, and the learned frame itself never trips the length
    check. *)
Theorem learn_then_detect (msg g : CANMessage) (s : IDS) :
  wf_baselines s -> wf_msg msg ->
  lookup_baseline s (can_id msg) <> None \/ baseline_count s < BASELINE_CAPACITY ->
  can_id g = can_id msg ->
  exists s', learn_baseline msg s = Some (tt, s') /\
    dlc_mismatch msg s' = Some (false, s') /\
    dlc_mismatch g s' = Some (negb (dlc g =? dlc msg), s') /\
    (id_in_ranges idRanges (can_id g) = true -> dlc g <> dlc msg ->
     detect_anomaly idRanges g s' = Some (true, s')).
Proof.
  intros Hwf Hmsg Hroom Hg.
  destruct (learn_result_lookup msg s Hwf Hroom) as (j & e & Hl & Hd).
  exists (learn_result msg s).
  split; [by apply learn_baseline_spec|].
  pose proof (learn_result_wf msg s Hwf Hmsg) as (Hlen & Hcnt & _).
  unfold BASELINE_CAPACITY in Hcnt.
  assert (Hm : forall f, can_id f = can_id msg ->
             dlc_mismatch f (learn_result msg s) =
             Some (negb (dlc f =? dlc msg), learn_result msg s)).
  { intros f Hf. rewrite dlc_mismatch_spec by lia. by rewrite Hf, Hl, Hd. }
  split; [by rewrite Hm, Z.eqb_refl|]. split; [by apply Hm|].
  intros Hin Hne. unfold detect_anomaly. rewrite Hin. cbn.
  erewrite bind_eval by (by apply Hm).
  by apply Z.eqb_neq in Hne as ->.
Qed.

(** ** The firewall and the classifier *)

Lemma id_in_ranges_from_true (rs : list IdRange) (ident : Z) :
  id_in_ranges_from rs ident = true <->
  exists r, r ∈ rs /\ range_start r <= ident <= range_end r.
Proof.
  induction rs as [|r rs IH]; cbn.
  - split; [done|]. intros (r & Hr & _). inversion Hr.
  - destruct ((range_start r <=? ident) && (ident <=? range_end r)) eqn:E.
    + split; [|done]. intros _. exists r. split; [left|].
      apply andb_true_iff in E as [E1 E2]. lia.
    + rewrite IH. split.
      * intros (r' & Hr' & Hin). exists r'. split; [by right|done].
      * intros (r' & Hr' & Hin). apply elem_of_cons in Hr' as [->|Hr'].
        -- apply andb_false_iff in E as [E|E]; lia.
        -- by exists r'.
Qed.

(** X6: the firewall accepts exactly the identifiers that lie in one of the
    configured ranges, bounds included; a range whose start is above its end
    accepts nothing, and an empty table accepts nothing. *)
Theorem id_in_ranges_contract (ident : Z) :
  (id_in_ranges idRanges ident = true <->
   exists r, r ∈ idRanges /\ range_start r <= ident <= range_end r) /\
  (Forall (fun r => range_end r < range_start r) idRanges ->
   id_in_ranges idRanges ident = false).
Proof.
  split; [apply id_in_ranges_from_true|].
  intros Hinv. apply id_in_ranges_from_false. intros r Hr Hin.
  eapply Forall_forall in Hinv; [|exact Hr]. cbn in Hinv. lia.
Qed.

(** X7: the verdict of [detect_anomaly] in closed form.  On a store whose
    occupancy count is within the table, for a frame with a payload byte 0,
    the classifier returns without touching the state, and it admits the
    frame (returns [false]) exactly when the identifier is in a configured
    range, the first learned entry of the identifier, if there is one,
    has the DLC of the frame, and, for the identifiers 0x300..0x399, byte 0
    is at most 120. *)
Theorem detect_anomaly_verdict (msg : CANMessage) (s : IDS) (v : Z) :
  (Z.to_nat (baseline_count s) <= length (baselines s))%nat ->
  data msg !! 0%nat = Some v ->
  exists b, detect_anomaly idRanges msg s = Some (b, s) /\
    (b = false <->
     (exists r, r ∈ idRanges /\ range_start r <= can_id msg <= range_end r) /\
     (forall j e, lookup_baseline s (can_id msg) = Some (j, e) -> dlc msg = bl_dlc e) /\
     (0x300 <= can_id msg <= 0x399 -> v <= 120)).
Proof.
  intros Hlen Hv. unfold detect_anomaly.
  destruct (id_in_ranges idRanges (can_id msg)) eqn:Hin; cbn [negb].
  2:{ exists true. split; [done|]. split; [done|].
      intros (Hr & _). apply id_in_ranges_from_true in Hr.
      unfold id_in_ranges in Hin. congruence. }
  assert (Hr : exists r, r ∈ idRanges /\ range_start r <= can_id msg <= range_end r)
    by (by apply id_in_ranges_from_true).
  erewrite bind_eval by (by apply dlc_mismatch_spec).
  destruct (lookup_baseline s (can_id msg)) as [[j e]|] eqn:Hl.
  - destruct (dlc msg =? bl_dlc e) eqn:Hd; cbn [negb].
    2:{ exists true. split; [done|]. split; [done|].
        intros (_ & H & _). apply Z.eqb_neq in Hd. by specialize (H j e eq_refl). }
    apply Z.eqb_eq in Hd.
    unfold payload_out_of_range, msg_data.
    destruct ((768 <=? can_id msg) && (can_id msg <=? 921)) eqn:Ht.
    + change (array_get (data msg) 0) with (data msg !! 0%nat). rewrite Hv.
      unfold bind. cbn. apply andb_true_iff in Ht as [Ht1 Ht2].
      destruct (v >? 120) eqn:Hg; cbn.
      * exists true. split; [done|]. split; [done|]. intros (_ & _ & H).
        rewrite Z.gtb_ltb in Hg. apply Z.ltb_lt in Hg. lia.
      * exists false. split; [done|]. split; [|done]. intros _.
        split; [done|]. split; [by intros ? ? [= <- <-]|].
        intros _. rewrite Z.gtb_ltb in Hg. apply Z.ltb_ge in Hg. lia.
    + unfold bind. cbn. exists false. split; [done|]. split; [|done]. intros _.
      split; [done|]. split; [by intros ? ? [= <- <-]|].
      intros H. apply andb_false_iff in Ht as [Ht|Ht]; lia.
  - unfold payload_out_of_range, msg_data.
    destruct ((768 <=? can_id msg) && (can_id msg <=? 921)) eqn:Ht.
    + change (array_get (data msg) 0) with (data msg !! 0%nat). rewrite Hv.
      unfold bind. cbn. apply andb_true_iff in Ht as [Ht1 Ht2].
      destruct (v >? 120) eqn:Hg; cbn.
      * exists true. split; [done|]. split; [done|]. intros (_ & _ & H).
        rewrite Z.gtb_ltb in Hg. apply Z.ltb_lt in Hg. lia.
      * exists false. split; [done|]. split; [|done]. intros _.
        split; [done|]. split; [by intros ? ? [=]|].
        intros _. rewrite Z.gtb_ltb in Hg. apply Z.ltb_ge in Hg. lia.
    + unfold bind. cbn. exists false. split; [done|]. split; [|done]. intros _.
      split; [done|]. split; [by intros ? ? [=]|].
      intros H. apply andb_false_iff in Ht as [Ht|Ht]; lia.
Qed.

(** X8: outside the temperature identifiers the payload is never looked at:
    two frames with the same identifier, not in 0x300..0x399, and the same
    DLC get the same verdict whatever their payloads are, also for a payload
    array that is missing. *)
Theorem payload_ignored_outside_temperature (m1 m2 : CANMessage) (s : IDS) :
  can_id m1 = can_id m2 ->
  dlc m1 = dlc m2 ->
  ~ (0x300 <= can_id m1 <= 0x399) ->
  detect_anomaly idRanges m1 s = detect_anomaly idRanges m2 s.
Proof.
  intros Hid Hdlc Hout.
  unfold detect_anomaly, dlc_mismatch, payload_out_of_range.
  rewrite <- Hid, <- Hdlc.
  replace ((768 <=? can_id m1) && (can_id m1 <=? 921)) with false; [done|].
  symmetry. apply andb_false_iff.
  destruct (Z.leb_spec 768 (can_id m1)); [right; apply Z.leb_gt; lia | by left].
Qed.

(** ** The dispatcher on arbitrary traffic *)

(** The verdict of the classifier as a boolean: [true] when the frame is
    admitted on the store of [s]. *)
Definition admitted_by (s : IDS) (f : CANMessage) : bool :=
  match detect_anomaly idRanges f s with
  | Some (false, _) => true
  | _ => false
  end.

(** The state that one call of the dispatcher leaves. *)
Definition dispatch_state (f : CANMessage) (s : IDS) : IDS :=
  if admitted_by s f
  then admit_state WINDOW_SIZE COUNT_MODULUS f s
  else set_uart_alerts (uart_alerts s ++ [(ALERT_ANOMALY_DETECTED, f)]) s.

#[global] Instance AlertType_eq_dec : EqDecision AlertType.
Proof. solve_decision. Defined.

(** The alerts of the classifier stage in a trace. *)
Definition anomaly_reports (l : list (AlertType * CANMessage)) : list CANMessage :=
  snd <$> filter (fun a => a.1 = ALERT_ANOMALY_DETECTED) l.

Lemma admitted_by_same_store (s1 s2 : IDS) (f : CANMessage) :
  same_store s1 s2 -> admitted_by s2 f = admitted_by s1 f.
Proof.
  intros Hs. unfold admitted_by.
  rewrite (store_reader_detect_anomaly idRanges f s1 s2 Hs).
  by destruct (detect_anomaly idRanges f s1) as [[[|] ?]|].
Qed.

Lemma CAN_MessageReceived_dispatch (f : CANMessage) (s : IDS) :
  wf_baselines s -> wf_msg f -> wf_window WINDOW_SIZE s -> WINDOW_SIZE < 2 ^ 32 ->
  CAN_MessageReceived idRanges WINDOW_SIZE COUNT_MODULUS f s = Some (tt, dispatch_state f s).
Proof.
  intros Hwf Hf Hw Hsmall.
  destruct (detect_anomaly_total idRanges f s Hwf Hf) as [b Hb].
  unfold dispatch_state, admitted_by. rewrite Hb. destruct b.
  - unfold CAN_MessageReceived. erewrite bind_eval by exact Hb. reflexivity.
  - by apply CAN_MessageReceived_admitted.
Qed.

Lemma dispatch_state_same_store (f : CANMessage) (s : IDS) :
  same_store s (dispatch_state f s).
Proof.
  unfold dispatch_state. destruct (admitted_by s f); [apply admit_state_same_store|done].
Qed.

Lemma dispatch_state_wf_window (f : CANMessage) (s : IDS) :
  wf_window WINDOW_SIZE s -> wf_window WINDOW_SIZE (dispatch_state f s).
Proof.
  intros Hw. unfold dispatch_state.
  destruct (admitted_by s f); [by apply admit_state_wf_window|done].
Qed.

Lemma same_store_wf_baselines (s1 s2 : IDS) :
  same_store s1 s2 -> wf_baselines s1 -> wf_baselines s2.
Proof. intros [H1 H2]. unfold wf_baselines. by rewrite H1, H2. Qed.

Lemma same_store_trans (s1 s2 s3 : IDS) :
  same_store s1 s2 -> same_store s2 s3 -> same_store s1 s3.
Proof. intros [H1 H2] [H3 H4]. split; congruence. Qed.

Lemma admit_all_window (fs : list CANMessage) :
  forall s1 s2, window s1 = window s2 ->
    window (admit_all WINDOW_SIZE COUNT_MODULUS fs s1) =
    window (admit_all WINDOW_SIZE COUNT_MODULUS fs s2).
Proof.
  induction fs as [|f fs IH]; intros s1 s2 Hw; [done|].
  cbn [admit_all]. apply IH. by rewrite !admit_state_window, Hw.
Qed.

(** X9: one call of the dispatcher.  On a well-formed state and frame
    [CAN_MessageReceived] returns without a fault (no access outside the
    ring, the table or the histogram, no remainder by zero); it never writes
    the baseline table or its count; the ring keeps its size and the cursor
    stays inside it; and the alert trace grows by at most one alert, which
    is raised for the frame of the call. *)
Theorem dispatcher_call_is_safe (f : CANMessage) (s : IDS) :
  wf_baselines s -> wf_msg f -> wf_window WINDOW_SIZE s -> WINDOW_SIZE < 2 ^ 32 ->
  exists s', CAN_MessageReceived idRanges WINDOW_SIZE COUNT_MODULUS f s = Some (tt, s') /\
    baselines s' = baselines s /\
    baseline_count s' = baseline_count s /\
    wf_window WINDOW_SIZE s' /\
    (uart_alerts s' = uart_alerts s \/
     exists k, uart_alerts s' = uart_alerts s ++ [(k, f)]).
Proof.
  intros Hwf Hf Hw Hsmall. exists (dispatch_state f s).
  split; [by apply CAN_MessageReceived_dispatch|].
  destruct (dispatch_state_same_store f s) as [H1 H2].
  split; [done|]. split; [done|]. split; [by apply dispatch_state_wf_window|].
  unfold dispatch_state. destruct (admitted_by s f).
  - unfold admit_state. destruct (dos_raised _ _); [right; by eexists|by left].
  - right. by eexists.
Qed.

(** X10: anomalous frames are transparent to the window.  On any traffic of
    well-formed frames the dispatcher returns at every frame; the window it
    leaves is the window that the admitted frames alone would have left, the
    baseline store is untouched, and the anomaly alerts it adds are the
    frames that the classifier rejects, each one once and in their order of
    arrival. *)
Theorem anomalous_frames_are_transparent (fs : list CANMessage) (s : IDS) :
  wf_baselines s -> wf_window WINDOW_SIZE s -> WINDOW_SIZE < 2 ^ 32 ->
  Forall wf_msg fs ->
  exists s', receive_all idRanges WINDOW_SIZE COUNT_MODULUS fs s = Some (tt, s') /\
    same_store s s' /\
    window s' =
      window (admit_all WINDOW_SIZE COUNT_MODULUS
                (filter (fun f => admitted_by s f = true) fs) s) /\
    anomaly_reports (uart_alerts s') =
      anomaly_reports (uart_alerts s) ++ filter (fun f => admitted_by s f = false) fs.
Proof.
  intros Hwf Hw Hsmall Hfs.
  cut (forall s1, same_store s s1 -> wf_window WINDOW_SIZE s1 ->
         exists s', receive_all idRanges WINDOW_SIZE COUNT_MODULUS fs s1 = Some (tt, s') /\
           same_store s s' /\
           window s' =
             window (admit_all WINDOW_SIZE COUNT_MODULUS
                       (filter (fun f => admitted_by s f = true) fs) s1) /\
           anomaly_reports (uart_alerts s') =
             anomaly_reports (uart_alerts s1) ++
             filter (fun f => admitted_by s f = false) fs).
  { intros H. apply H; [apply same_store_refl|done]. }
  induction Hfs as [|f fs Hf Hfs IH]; intros s1 Hs1 Hw1.
  - exists s1. rewrite !filter_nil, app_nil_r.
    split; [reflexivity|]. split; [done|]. split; reflexivity.
  - cbn [receive_all].
    erewrite bind_eval
      by (apply CAN_MessageReceived_dispatch;
          [by apply (same_store_wf_baselines s)|done|done|done]).
    destruct (IH (dispatch_state f s1)) as (s' & Hrun & Hs' & Hwin & Hrep).
    { eapply same_store_trans; [exact Hs1|apply dispatch_state_same_store]. }
    { by apply dispatch_state_wf_window. }
    exists s'. split; [done|]. split; [done|].
    rewrite !filter_cons. rewrite Hwin, Hrep.
    unfold dispatch_state. rewrite (admitted_by_same_store s s1 f Hs1).
    destruct (admitted_by s f) eqn:Ha.
    + rewrite decide_True, decide_False by done. split; [done|].
      f_equal. unfold admit_state, anomaly_reports.
      destruct (dos_raised _ _); [|done]. cbn.
      rewrite filter_app, filter_cons, filter_nil. cbn.
      rewrite decide_False by done. by rewrite app_nil_r.
    + rewrite decide_False, decide_True by done. split.
      * by apply admit_all_window.
      * unfold anomaly_reports. cbn. rewrite filter_app, filter_cons, filter_nil. cbn.
        rewrite decide_True by done. rewrite fmap_app. cbn. by rewrite <- app_assoc.
Qed.

(** ** The ring as a sliding window *)

Lemma admit_all_ring (ms0 : list CANMessage) :
  length ms0 = Z.to_nat WINDOW_SIZE ->
  forall (fs hist : list CANMessage) (s : IDS),
    ring_holds WINDOW_SIZE (window s) (drop (length hist) (ms0 ++ hist)) ->
    ring_holds WINDOW_SIZE (window (admit_all WINDOW_SIZE COUNT_MODULUS fs s))
               (drop (length (hist ++ fs)) (ms0 ++ hist ++ fs)).
Proof.
  intros Hms0. induction fs as [|f fs IH]; intros hist s Hring.
  - cbn [admit_all]. by rewrite app_nil_r.
  - cbn [admit_all].
    pose proof (admit_state_ring WINDOW_SIZE COUNT_MODULUS f s ms0 hist Hms0 Hring) as H1.
    apply IH in H1. rewrite <- !app_assoc in H1. exact H1.
Qed.

Lemma admit_all_index (fs : list CANMessage) :
  forall s : IDS,
    0 <= index (window s) < WINDOW_SIZE ->
    index (window (admit_all WINDOW_SIZE COUNT_MODULUS fs s)) =
    (index (window s) + Z.of_nat (length fs)) mod WINDOW_SIZE.
Proof.
  induction fs as [|f fs IH]; intros s Hi.
  - cbn. rewrite Z.add_0_r, Z.mod_small by lia. done.
  - cbn [admit_all length].
    assert (H1 : index (window (admit_state WINDOW_SIZE COUNT_MODULUS f s)) =
                 (index (window s) + 1) mod WINDOW_SIZE).
    { rewrite admit_state_window. cbn. apply Z.rem_mod_nonneg; lia. }
    rewrite IH by (rewrite H1; apply Z.mod_pos_bound; lia).
    rewrite H1, Z.add_mod_idemp_l by lia. f_equal. lia.
Qed.

(** Where the frame at position [i] of the ring contents sits. *)
Lemma ring_holds_lookup (w : MessageWindow) (L : list CANMessage) (r i : nat)
    (x : CANMessage) :
  ring_holds WINDOW_SIZE w L ->
  index w = Z.of_nat r ->
  L !! i = Some x ->
  messages w !! ((r + i) mod Z.to_nat WINDOW_SIZE)%nat = Some x.
Proof.
  intros (r' & Hr' & Hlt & HL & Hm) Hr Hi.
  assert (r' = r) as -> by lia.
  pose proof (lookup_lt_Some _ _ _ Hi) as HiL. rewrite HL in HiL.
  set (Wn := Z.to_nat WINDOW_SIZE) in *. rewrite Hm.
  destruct (decide (r + i < Wn)%nat) as [Hs|Hs].
  - rewrite Nat.mod_small by done.
    rewrite lookup_app_r by (rewrite length_drop; lia).
    rewrite length_drop, lookup_take_lt by lia.
    rewrite <- Hi. f_equal. lia.
  - replace ((r + i) mod Wn)%nat with (r + i - Wn)%nat.
    + rewrite lookup_app_l by (rewrite length_drop; lia).
      rewrite lookup_drop, <- Hi. f_equal. lia.
    + replace (r + i)%nat with ((r + i - Wn) + 1 * Wn)%nat at 2 by lia.
      rewrite Nat.Div0.mod_add. symmetry. apply Nat.mod_small. lia.
Qed.

(** X11: the ring is a sliding window over the admitted frames.  After any
    number [n] of frames that pass the classifier were received by a fresh
    window, the cursor is [n mod WINDOW_SIZE] and each of the last
    [WINDOW_SIZE] frames sits in the slot of its arrival number modulo the
    capacity: the ring holds exactly the most recent frames, the oldest one
    at the cursor. *)
Theorem ring_is_sliding_window (fs : list CANMessage) (s : IDS) :
  wf_window WINDOW_SIZE s ->
  index (window s) = 0 ->
  WINDOW_SIZE < 2 ^ 32 ->
  Forall (fun f => detect_anomaly idRanges f s = Some (false, s)) fs ->
  exists s', receive_all idRanges WINDOW_SIZE COUNT_MODULUS fs s = Some (tt, s') /\
    index (window s') = Z.of_nat (length fs) mod WINDOW_SIZE /\
    length (messages (window s')) = Z.to_nat WINDOW_SIZE /\
    (forall t f, fs !! t = Some f ->
       (length fs <= t + Z.to_nat WINDOW_SIZE)%nat ->
       messages (window s') !! (t mod Z.to_nat WINDOW_SIZE)%nat = Some f).
Proof.
  intros Hw Hi Hsmall Hadm. pose proof Hw as [Hlen Hidx].
  exists (admit_all WINDOW_SIZE COUNT_MODULUS fs s).
  split; [by apply receive_all_spec|].
  assert (Hindex : index (window (admit_all WINDOW_SIZE COUNT_MODULUS fs s)) =
                   Z.of_nat (length fs) mod WINDOW_SIZE)
    by (rewrite admit_all_index by done; by rewrite Hi).
  split; [done|].
  assert (Hring : ring_holds WINDOW_SIZE (window (admit_all WINDOW_SIZE COUNT_MODULUS fs s))
                    (drop (length fs) (messages (window s) ++ fs))).
  { apply (admit_all_ring (messages (window s)) Hlen fs [] s).
    rewrite app_nil_r. cbn [length]. rewrite drop_0.
    apply ring_holds_fresh; [done|lia|done]. }
  split.
  { rewrite (Permutation_length (ring_holds_perm _ _ _ Hring)).
    rewrite length_drop, length_app. lia. }
  intros t f Ht Hrecent.
  set (Wn := Z.to_nat WINDOW_SIZE) in *. set (n := length fs) in *.
  assert (HWn : (0 < Wn)%nat) by lia.
  assert (Hr : index (window (admit_all WINDOW_SIZE COUNT_MODULUS fs s)) =
               Z.of_nat (n mod Wn)).
  { rewrite Hindex. replace WINDOW_SIZE with (Z.of_nat Wn) by lia.
    by rewrite Nat2Z.inj_mod. }
  pose proof (ring_holds_lookup _ _ (n mod Wn) (Wn + t - n) f Hring Hr) as Hlook.
  fold Wn in Hlook.
  replace ((n mod Wn + (Wn + t - n)) mod Wn)%nat with (t mod Wn)%nat in Hlook.
  - apply Hlook. rewrite lookup_drop.
    replace (n + (Wn + t - n))%nat with (length (messages (window s)) + t)%nat by lia.
    by rewrite lookup_app_r, Nat.add_sub' by lia.
  - pose proof (Nat.div_mod_eq n Wn) as Hn.
    replace (t mod Wn)%nat with ((t + Wn) mod Wn)%nat
      by (replace (t + Wn)%nat with (t + 1 * Wn)%nat by lia; apply Nat.Div0.mod_add).
    replace (t + Wn)%nat with ((n mod Wn + (Wn + t - n)) + (n / Wn) * Wn)%nat by lia.
    by rewrite Nat.Div0.mod_add.
Qed.

(** X12: a fresh window is quiet until it is full.  Whatever identifiers
    they carry, fewer than [WINDOW_SIZE] admitted frames on a fresh window
    raise no alert: the flood test does not run on the zero-initialised
    slots. *)
Theorem no_flood_alert_before_ring_is_full (fs : list CANMessage) (s : IDS) :
  wf_window WINDOW_SIZE s ->
  index (window s) = 0 ->
  count (window s) = 0 ->
  0 < COUNT_MODULUS ->
  WINDOW_SIZE < 2 ^ 32 ->
  (length fs < Z.to_nat WINDOW_SIZE)%nat ->
  Forall (fun f => detect_anomaly idRanges f s = Some (false, s)) fs ->
  exists s', receive_all idRanges WINDOW_SIZE COUNT_MODULUS fs s = Some (tt, s') /\
    uart_alerts s' = uart_alerts s.
Proof.
  intros Hw Hi Hc HM Hsmall Hshort Hadm. pose proof Hw as [Hlen Hidx].
  exists (admit_all WINDOW_SIZE COUNT_MODULUS fs s).
  split; [by apply receive_all_spec|].
  destruct (admit_all_quiet WINDOW_SIZE COUNT_MODULUS (messages (window s)) HM Hlen fs [] s)
    as (Ha & _); [| |  |done].
  - rewrite app_nil_r. cbn [length]. rewrite drop_0.
    apply ring_holds_fresh; [done|lia|done].
  - by rewrite Hc.
  - intros n Hn. cbn [length] in Hn. left.
    pose proof (Z.mod_le (Z.of_nat n) COUNT_MODULUS ltac:(lia) HM). lia.
Qed.

(** Frames of one identifier on a ring that they fill: every admission
    raises the flood alert. *)
Lemma admit_all_loud (ms0 : list CANMessage) (a : Z) :
  1 <= WINDOW_SIZE <= 256 ->
  length ms0 = Z.to_nat WINDOW_SIZE ->
  forall (fs hist : list CANMessage) (s : IDS),
    ring_holds WINDOW_SIZE (window s) (drop (length hist) (ms0 ++ hist)) ->
    count (window s) = Z.of_nat (length hist) ->
    (Z.to_nat WINDOW_SIZE <= length hist + 1)%nat ->
    Z.of_nat (length hist + length fs) < COUNT_MODULUS ->
    Forall (fun f => can_id f = a) (hist ++ fs) ->
    uart_alerts (admit_all WINDOW_SIZE COUNT_MODULUS fs s) =
    uart_alerts s ++ ((fun f => (ALERT_DOS_DETECTED, f)) <$> fs).
Proof.
  intros HW Hms0. induction fs as [|f fs IH]; intros hist s Hring Hcnt Hfull HM Hsame.
  - cbn. by rewrite app_nil_r.
  - cbn [admit_all length] in *.
    pose proof (admit_state_ring WINDOW_SIZE COUNT_MODULUS f s ms0 hist Hms0 Hring) as Hring1.
    assert (Hcnt1 : count (window (admit_state WINDOW_SIZE COUNT_MODULUS f s)) =
                    Z.of_nat (length (hist ++ [f]))).
    { rewrite admit_state_window. cbn. rewrite Hcnt, length_app. cbn [length].
      rewrite Z.mod_small by lia. lia. }
    assert (Hyes : dos_raised WINDOW_SIZE
                     (window_push WINDOW_SIZE COUNT_MODULUS f (window s)) = true).
    { unfold dos_raised. rewrite <- admit_state_window. apply andb_true_iff. split.
      - rewrite Z.geb_leb. apply Z.leb_le. rewrite Hcnt1, length_app. cbn [length]. lia.
      - rewrite (flood_perm _ _ _ (ring_holds_perm _ _ _ Hring1)).
        apply flood_true_iff. exists (Z.land a 0xFF).
        split; [apply (id_hash_range (mkCANMessage a 0 [] 0))|].
        rewrite (bucket_count_uniform _ a).
        + rewrite decide_True by done.
          rewrite length_drop, !length_app, Hms0. cbn [length].
          replace (Z.of_nat (Z.to_nat WINDOW_SIZE + (length hist + 1) - (length hist + 1)))
            with WINDOW_SIZE by lia.
          destruct (exceeds_dos_threshold_bounds WINDOW_SIZE WINDOW_SIZE) as [Hhi _];
            [unfold MAX_CHECKED_WINDOW; lia|lia|]. apply Hhi. lia.
        + rewrite length_app. cbn [length].
          rewrite drop_app_ge by lia. apply Forall_drop.
          apply Forall_app in Hsame as [Hh Hf]. apply Forall_app. split; [done|].
          apply Forall_cons in Hf as [Hf _]. by apply Forall_singleton. }
    rewrite (IH (hist ++ [f]) (admit_state WINDOW_SIZE COUNT_MODULUS f s)).
    + unfold admit_state. rewrite Hyes. cbn. by rewrite <- app_assoc.
    + done.
    + done.
    + rewrite length_app. cbn [length]. lia.
    + rewrite length_app. cbn [length]. lia.
    + by rewrite <- app_assoc.
Qed.

(** X13: once the ring is full the flood test is re-run at every admitted
    frame, for as long as the counter has not wrapped.  On a fresh window
    with a capacity of 1 to 256 slots, a stream of admitted frames of one
    identifier, at least [WINDOW_SIZE] of them and fewer than
    [COUNT_MODULUS] (so the counter does not wrap within the stream), raises
    no alert for the first [WINDOW_SIZE - 1] frames and one
    [ALERT_DOS_DETECTED] alert for each frame after them. *)
Theorem flood_alert_at_every_frame (fs : list CANMessage) (a : Z) (s : IDS) :
  wf_window WINDOW_SIZE s ->
  index (window s) = 0 ->
  count (window s) = 0 ->
  1 <= WINDOW_SIZE <= 256 ->
  Z.of_nat (length fs) < COUNT_MODULUS ->
  (Z.to_nat WINDOW_SIZE <= length fs)%nat ->
  Forall (fun f => can_id f = a) fs ->
  Forall (fun f => detect_anomaly idRanges f s = Some (false, s)) fs ->
  exists s', receive_all idRanges WINDOW_SIZE COUNT_MODULUS fs s = Some (tt, s') /\
    uart_alerts s' =
    uart_alerts s ++
    ((fun f => (ALERT_DOS_DETECTED, f)) <$> drop (Z.to_nat WINDOW_SIZE - 1) fs).
Proof.
  intros Hw Hi Hc HW HM Hlong Hsame Hadm. pose proof Hw as [Hlen Hidx].
  exists (admit_all WINDOW_SIZE COUNT_MODULUS fs s).
  split; [apply receive_all_spec; [done|done|lia]|].
  set (k := (Z.to_nat WINDOW_SIZE - 1)%nat).
  rewrite <- (take_drop k fs) at 1. rewrite admit_all_app.
  assert (Hk : length (take k fs) = k) by (rewrite length_take; lia).
  destruct (admit_all_quiet WINDOW_SIZE COUNT_MODULUS (messages (window s))
              ltac:(lia) Hlen (take k fs) [] s) as (Ha & _ & Hr & Hcnt).
  - rewrite app_nil_r. cbn [length]. rewrite drop_0.
    apply ring_holds_fresh; [done|lia|done].
  - by rewrite Hc.
  - intros n Hn. cbn [length] in Hn. left. rewrite Z.mod_small by lia. lia.
  - cbn [app] in Hr, Hcnt.
    rewrite (admit_all_loud (messages (window s)) a HW Hlen (drop k fs) (take k fs)).
    + by rewrite Ha.
    + exact Hr.
    + rewrite Hcnt. apply Z.mod_small. lia.
    + lia.
    + rewrite <- length_app, take_drop. done.
    + by rewrite take_drop.
Qed.

(** ** [hamming_distance] *)

(** The inner loop [while (xor) { distance += xor & 1; xor >>= 1; }] on two
    [uint8_t].  [fuel] bounds the number of iterations; [None] means that it
    was not enough. *)
Fixpoint count_set_bits (fuel : nat) (xor distance : Z) : option Z :=
  if xor =? 0 then Some distance
  else match fuel with
       | O => None
       | S fuel' =>
           count_set_bits fuel' (Z.shiftr xor 1 mod 256)
                          ((distance + Z.land xor 1) mod 256)
       end.

(** The loop over the bytes, from index [i], with the running [distance].
    A [uint8_t] has eight bits, so eight rounds of the inner loop are
    allowed for. *)
Fixpoint hamming_loop (n : nat) (i : Z) (data1 data2 : list Z) (distance : Z) : option Z :=
  match n with
  | O => Some distance
  | S n' =>
      match array_get data1 i, array_get data2 i with
      | Some a, Some b =>
          match count_set_bits 8 (Z.lxor a b mod 256) distance with
          | Some d => hamming_loop n' (i + 1) data1 data2 d
          | None => None
          end
      | _, _ => None
      end
  end.

Definition hamming_distance (data1 data2 : list Z) (len : Z) : option Z :=
  hamming_loop (Z.to_nat len) 0 data1 data2 0.

(** The number of ones among the low [n] bits of [x]. *)
Fixpoint popcount (n : nat) (x : Z) : Z :=
  match n with
  | O => 0
  | S n' => Z.b2z (Z.testbit x 0) + popcount n' (Z.div2 x)
  end.

(** In how many of the bit positions 0..7 two bytes differ. *)
Definition bit_differences (a b : Z) : Z :=
  Z.b2z (xorb (Z.testbit a 0) (Z.testbit b 0)) +
  Z.b2z (xorb (Z.testbit a 1) (Z.testbit b 1)) +
  Z.b2z (xorb (Z.testbit a 2) (Z.testbit b 2)) +
  Z.b2z (xorb (Z.testbit a 3) (Z.testbit b 3)) +
  Z.b2z (xorb (Z.testbit a 4) (Z.testbit b 4)) +
  Z.b2z (xorb (Z.testbit a 5) (Z.testbit b 5)) +
  Z.b2z (xorb (Z.testbit a 6) (Z.testbit b 6)) +
  Z.b2z (xorb (Z.testbit a 7) (Z.testbit b 7)).

(** The differing bits of two byte strings, position by position. *)
Fixpoint total_bit_differences (l1 l2 : list Z) : Z :=
  match l1, l2 with
  | a :: l1', b :: l2' => bit_differences a b + total_bit_differences l1' l2'
  | _, _ => 0
  end.

Definition is_byte (b : Z) : Prop := 0 <= b < 256.

Lemma count_set_bits_spec (fuel : nat) :
  forall x d, 0 <= x < 2 ^ Z.of_nat fuel -> x < 256 -> 0 <= d < 256 ->
    count_set_bits fuel x d = Some ((d + popcount fuel x) mod 256).
Proof.
  induction fuel as [|fuel IH]; intros x d Hx Hx8 Hd.
  - assert (x = 0) as -> by (cbn in Hx; lia). cbn.
    by rewrite Z.add_0_r, Z.mod_small.
  - cbn [count_set_bits popcount].
    assert (Hsh : Z.shiftr x 1 = Z.div2 x) by (by rewrite Z.div2_spec).
    assert (Hdiv : Z.div2 x = x / 2) by (by rewrite Z.div2_div).
    assert (Hbit : Z.land x 1 = Z.b2z (Z.testbit x 0)).
    { change 1 with (Z.ones 1) at 1. rewrite Z.land_ones by lia.
      by rewrite Z.bit0_mod. }
    assert (Hhalf : 0 <= x / 2 < 2 ^ Z.of_nat fuel).
    { rewrite Nat2Z.inj_succ, Z.pow_succ_r in Hx by lia.
      split; [apply Z.div_pos; lia|]. apply Z.div_lt_upper_bound; lia. }
    assert (Hhalf8 : x / 2 < 256)
      by (apply Z.div_lt_upper_bound; lia).
    destruct (x =? 0) eqn:E.
    + apply Z.eqb_eq in E. subst x. cbn.
      replace (popcount fuel 0) with 0.
      * by rewrite Z.add_0_r, Z.mod_small.
      * clear. induction fuel as [|f IHf]; cbn; [done|]. by rewrite <- IHf.
    + rewrite Hsh, Hdiv, Z.mod_small by lia.
      rewrite IH; [|done|done|apply Z.mod_pos_bound; lia].
      rewrite Hbit, <- Hdiv. rewrite Zplus_mod_idemp_l. f_equal. f_equal. lia.
Qed.

Lemma popcount_low_byte (x : Z) :
  popcount 8 (x mod 256) =
  Z.b2z (Z.testbit x 0) + Z.b2z (Z.testbit x 1) + Z.b2z (Z.testbit x 2) +
  Z.b2z (Z.testbit x 3) + Z.b2z (Z.testbit x 4) + Z.b2z (Z.testbit x 5) +
  Z.b2z (Z.testbit x 6) + Z.b2z (Z.testbit x 7).
Proof.
  cbn [popcount]. rewrite !Z.div2_spec. rewrite !Z.shiftr_spec by lia.
  change (0 + 1 + 1 + 1 + 1 + 1 + 1 + 1) with 7.
  change (0 + 1 + 1 + 1 + 1 + 1 + 1) with 6.
  change (0 + 1 + 1 + 1 + 1 + 1) with 5.
  change (0 + 1 + 1 + 1 + 1) with 4.
  change (0 + 1 + 1 + 1) with 3.
  change (0 + 1 + 1) with 2.
  change (0 + 1) with 1.
  change 256 with (2 ^ 8).
  rewrite !Z.mod_pow2_bits_low by lia. lia.
Qed.

Lemma count_set_bits_xor (a b d : Z) :
  0 <= d < 256 ->
  count_set_bits 8 (Z.lxor a b mod 256) d = Some ((d + bit_differences a b) mod 256).
Proof.
  intros Hd.
  pose proof (Z.mod_pos_bound (Z.lxor a b) 256 ltac:(lia)) as Hx.
  rewrite count_set_bits_spec by (done || (cbn; lia) || lia).
  rewrite popcount_low_byte. unfold bit_differences.
  by rewrite !Z.lxor_spec.
Qed.

Lemma bit_differences_range (a b : Z) : 0 <= bit_differences a b <= 8.
Proof.
  unfold bit_differences.
  repeat match goal with
         | |- context [xorb ?p ?q] => generalize (xorb p q); intros []
         end; cbn; lia.
Qed.

Lemma total_bit_differences_range (l1 l2 : list Z) :
  0 <= total_bit_differences l1 l2 <= 8 * Z.of_nat (length l1).
Proof.
  revert l2. induction l1 as [|a l1 IH]; intros [|b l2]; cbn [total_bit_differences length];
    try lia.
  pose proof (bit_differences_range a b). specialize (IH l2). lia.
Qed.

Lemma hamming_loop_spec (data1 data2 : list Z) :
  forall (n i : nat) (d : Z),
    (i + n <= length data1)%nat -> (i + n <= length data2)%nat ->
    0 <= d < 256 ->
    hamming_loop n (Z.of_nat i) data1 data2 d =
    Some ((d + total_bit_differences (take n (drop i data1)) (take n (drop i data2)))
          mod 256).
Proof.
  induction n as [|n IH]; intros i d H1 H2 Hd.
  - cbn. by rewrite Z.add_0_r, Z.mod_small.
  - destruct (data1 !! i) as [a|] eqn:Ha; [|apply lookup_ge_None in Ha; lia].
    destruct (data2 !! i) as [b|] eqn:Hb; [|apply lookup_ge_None in Hb; lia].
    cbn [hamming_loop]. rewrite !array_get_nat, Ha, Hb.
    rewrite count_set_bits_xor by done.
    replace (Z.of_nat i + 1) with (Z.of_nat (S i)) by lia.
    rewrite IH by (lia || (apply Z.mod_pos_bound; lia)).
    rewrite (drop_S _ _ _ Ha), (drop_S _ _ _ Hb). cbn [take total_bit_differences].
    rewrite Zplus_mod_idemp_l. f_equal. f_equal. lia.
Qed.

Lemma hamming_loop_out_of_bounds (data1 data2 : list Z) :
  forall (n i : nat) (d : Z),
    0 <= d < 256 ->
    (i <= length data1)%nat -> (i <= length data2)%nat ->
    (length data1 < i + n)%nat \/ (length data2 < i + n)%nat ->
    hamming_loop n (Z.of_nat i) data1 data2 d = None.
Proof.
  induction n as [|n IH]; intros i d Hd H1 H2 Hout; [lia|].
  cbn [hamming_loop]. rewrite !array_get_nat.
  destruct (data1 !! i) as [a|] eqn:Ha; [|done].
  destruct (data2 !! i) as [b|] eqn:Hb; [|done].
  apply lookup_lt_Some in Ha, Hb.
  rewrite count_set_bits_xor by done.
  replace (Z.of_nat i + 1) with (Z.of_nat (S i)) by lia.
  apply IH; [apply Z.mod_pos_bound; lia|lia|lia|lia].
Qed.

(** X14: [hamming_distance] counts the bit positions in which the first
    [len] bytes of the two arrays differ, modulo 256 (the accumulator is a
    [uint8_t]); the inner loop always ends within eight rounds.  It reads
    the bytes 0 .. [len]-1 of both arrays: when one of them is shorter than
    [len] the call runs outside the array (fault). *)
Theorem hamming_distance_counts_bits (data1 data2 : list Z) (len : nat) :
  ((len <= length data1)%nat -> (len <= length data2)%nat ->
   hamming_distance data1 data2 (Z.of_nat len) =
   Some (total_bit_differences (take len data1) (take len data2) mod 256)) /\
  ((length data1 < len)%nat \/ (length data2 < len)%nat ->
   hamming_distance data1 data2 (Z.of_nat len) = None).
Proof.
  unfold hamming_distance. rewrite Nat2Z.id. change 0 with (Z.of_nat 0) at 1 3.
  split.
  - intros H1 H2. rewrite hamming_loop_spec by (cbn; lia). by rewrite !drop_0.
  - intros Hout. apply hamming_loop_out_of_bounds; cbn; lia.
Qed.

Lemma bit_differences_sym (a b : Z) : bit_differences a b = bit_differences b a.
Proof. unfold bit_differences. by rewrite !(xorb_comm (Z.testbit a _)). Qed.

Lemma count_set_bits_mod_sym (a b d : Z) :
  count_set_bits 8 (Z.lxor a b mod 256) d = count_set_bits 8 (Z.lxor b a mod 256) d.
Proof. by rewrite Z.lxor_comm. Qed.

(** X15: the distance is symmetric: exchanging the two arrays gives the
    same result, a fault included. *)
Theorem hamming_distance_symmetric (data1 data2 : list Z) (len : Z) :
  hamming_distance data1 data2 len = hamming_distance data2 data1 len.
Proof.
  unfold hamming_distance. generalize 0 at 2 4 as d. generalize 0 as i.
  induction (Z.to_nat len) as [|n IH]; intros i d; [done|].
  cbn [hamming_loop].
  destruct (array_get data1 i) as [a|], (array_get data2 i) as [b|]; try done.
  rewrite (count_set_bits_mod_sym a b).
  destruct (count_set_bits 8 (Z.lxor b a mod 256) d); [apply IH|done].
Qed.

Lemma byte_eq_of_bits (a b : Z) :
  is_byte a -> is_byte b -> bit_differences a b = 0 -> a = b.
Proof.
  intros Ha Hb H. unfold is_byte in *.
  assert (Hbits : forall k, 0 <= k < 8 -> Z.testbit a k = Z.testbit b k).
  { intros k Hk. unfold bit_differences in H.
    assert (k = 0 \/ k = 1 \/ k = 2 \/ k = 3 \/ k = 4 \/ k = 5 \/ k = 6 \/ k = 7)
      as Hcases by lia.
    repeat match type of H with
           | context [Z.b2z (xorb ?p ?q)] =>
               let E := fresh "E" in
               destruct (xorb p q) eqn:E; cbn [Z.b2z] in H
           end; try lia.
    repeat match goal with
           | E : xorb _ _ = false |- _ => apply xorb_eq in E
           end.
    destruct Hcases as [->|[->|[->|[->|[->|[->|[->| ->]]]]]]]; assumption. }
  apply Z.bits_inj'. intros k Hk.
  destruct (Z.lt_ge_cases k 8) as [Hlt|Hge]; [apply Hbits; lia|].
  rewrite <- (Z.mod_small a (2 ^ 8)), <- (Z.mod_small b (2 ^ 8)) by (cbn; lia).
  by rewrite !Z.mod_pow2_bits_high by lia.
Qed.

Lemma bit_differences_refl (a : Z) : bit_differences a a = 0.
Proof. unfold bit_differences. by rewrite !xorb_nilpotent. Qed.

Lemma total_bit_differences_zero (l1 l2 : list Z) :
  length l1 = length l2 ->
  Forall is_byte l1 -> Forall is_byte l2 ->
  (total_bit_differences l1 l2 = 0 <-> l1 = l2).
Proof.
  revert l2. induction l1 as [|a l1 IH]; intros [|b l2] Hlen H1 H2; try discriminate.
  - done.
  - cbn [total_bit_differences]. apply Forall_cons in H1 as [Ha H1].
    apply Forall_cons in H2 as [Hb H2]. injection Hlen as Hlen.
    pose proof (bit_differences_range a b) as Hr1.
    pose proof (total_bit_differences_range l1 l2) as Hr2.
    split.
    + intros Hsum. assert (bit_differences a b = 0) as Hab by lia.
      assert (total_bit_differences l1 l2 = 0) as Hl by lia.
      f_equal; [by apply byte_eq_of_bits | by apply IH].
    + intros [= -> ->]. rewrite bit_differences_refl.
      assert (total_bit_differences l2 l2 = 0) by (by apply IH). lia.
Qed.

(** X16: below 32 bytes the count cannot wrap: the result is at most
    [8 * len], and on arrays of bytes it is 0 exactly when the first [len]
    bytes of the two arrays are equal. *)
Theorem hamming_distance_zero_iff_equal (data1 data2 : list Z) (len : nat) :
  (len <= 31)%nat ->
  (len <= length data1)%nat -> (len <= length data2)%nat ->
  exists d, hamming_distance data1 data2 (Z.of_nat len) = Some d /\
    d = total_bit_differences (take len data1) (take len data2) /\
    0 <= d <= 8 * Z.of_nat len /\
    (Forall is_byte data1 -> Forall is_byte data2 ->
     (d = 0 <-> take len data1 = take len data2)).
Proof.
  intros H31 H1 H2.
  pose proof (total_bit_differences_range (take len data1) (take len data2)) as Hr.
  rewrite length_take_le in Hr by done.
  exists (total_bit_differences (take len data1) (take len data2)).
  split.
  - unfold hamming_distance. rewrite Nat2Z.id. change 0 with (Z.of_nat 0) at 1.
    rewrite hamming_loop_spec by (cbn; lia). rewrite !drop_0, Z.add_0_l.
    by rewrite Z.mod_small by lia.
  - split; [done|]. split; [done|]. intros Hb1 Hb2.
    apply total_bit_differences_zero.
    + by rewrite !length_take_le.
    + by apply Forall_take.
    + by apply Forall_take.
Qed.

Lemma bit_differences_triangle (a b c : Z) :
  bit_differences a c <= bit_differences a b + bit_differences b c.
Proof.
  unfold bit_differences.
  assert (Hbit : forall p q r : bool,
            Z.b2z (xorb p r) <= Z.b2z (xorb p q) + Z.b2z (xorb q r))
    by (intros [] [] []; cbn; lia).
  pose proof (Hbit (Z.testbit a 0) (Z.testbit b 0) (Z.testbit c 0)).
  pose proof (Hbit (Z.testbit a 1) (Z.testbit b 1) (Z.testbit c 1)).
  pose proof (Hbit (Z.testbit a 2) (Z.testbit b 2) (Z.testbit c 2)).
  pose proof (Hbit (Z.testbit a 3) (Z.testbit b 3) (Z.testbit c 3)).
  pose proof (Hbit (Z.testbit a 4) (Z.testbit b 4) (Z.testbit c 4)).
  pose proof (Hbit (Z.testbit a 5) (Z.testbit b 5) (Z.testbit c 5)).
  pose proof (Hbit (Z.testbit a 6) (Z.testbit b 6) (Z.testbit c 6)).
  pose proof (Hbit (Z.testbit a 7) (Z.testbit b 7) (Z.testbit c 7)).
  lia.
Qed.

Lemma total_bit_differences_triangle (l1 l2 l3 : list Z) :
  length l1 = length l2 -> length l2 = length l3 ->
  total_bit_differences l1 l3 <=
  total_bit_differences l1 l2 + total_bit_differences l2 l3.
Proof.
  revert l2 l3. induction l1 as [|a l1 IH]; intros [|b l2] [|c l3] H12 H23;
    cbn [length] in H12, H23; try lia; cbn [total_bit_differences]; try lia.
  pose proof (bit_differences_triangle a b c).
  specialize (IH l2 l3 ltac:(lia) ltac:(lia)). lia.
Qed.

(** X17: below 32 bytes the distance obeys the triangle inequality: the
    distance from the first to the third array is at most the sum of the
    distances through the second. *)
Theorem hamming_distance_triangle (data1 data2 data3 : list Z) (len : nat) :
  (len <= 31)%nat ->
  (len <= length data1)%nat -> (len <= length data2)%nat -> (len <= length data3)%nat ->
  exists d12 d23 d13,
    hamming_distance data1 data2 (Z.of_nat len) = Some d12 /\
    hamming_distance data2 data3 (Z.of_nat len) = Some d23 /\
    hamming_distance data1 data3 (Z.of_nat len) = Some d13 /\
    d13 <= d12 + d23.
Proof.
  intros H31 H1 H2 H3.
  assert (Hrun : forall l1 l2, (len <= length l1)%nat -> (len <= length l2)%nat ->
            hamming_distance l1 l2 (Z.of_nat len) =
            Some (total_bit_differences (take len l1) (take len l2))).
  { intros l1 l2 Hl1 Hl2.
    pose proof (total_bit_differences_range (take len l1) (take len l2)) as Hr.
    rewrite length_take_le in Hr by done.
    unfold hamming_distance. rewrite Nat2Z.id. change 0 with (Z.of_nat 0) at 1.
    rewrite hamming_loop_spec by (cbn; lia). rewrite !drop_0, Z.add_0_l.
    by rewrite Z.mod_small by lia. }
  eexists _, _, _. split; [by apply Hrun|]. split; [by apply Hrun|].
  split; [by apply Hrun|].
  apply total_bit_differences_triangle; by rewrite !length_take_le.
Qed.

(** ** The receive path of [main] *)

(** [for (uint8_t b = 0; b < RxBufferLen && b < 8; b++) rxMsg.data[b] =
    RxBuffer[b];] from index [b] on.  [fuel] bounds the iterations; eight
    are enough because of [b < 8]. *)
Fixpoint copy_received (fuel : nat) (b RxBufferLen : Z) (RxBuffer data : list Z)
  : option (list Z) :=
  if (b <? RxBufferLen) && (b <? 8) then
    match fuel with
    | O => None
    | S fuel' =>
        match array_get RxBuffer b with
        | Some v =>
            match array_set data b v with
            | Some data' => copy_received fuel' (b + 1) RxBufferLen RxBuffer data'
            | None => None
            end
        | None => None
        end
    end
  else Some data.

(** The frame that the listen branch of [main] builds for the detection
    engine (it passes it on to [ids_process_message], which this file does
    not define): the designated initialiser sets identifier, DLC and time
    stamp and zeroes the payload, then the loop copies the received bytes. *)
Definition wrap_received (RxMessageID RxBufferLen : Z) (RxBuffer : list Z)
    (RxTimestamp : Z) : option CANMessage :=
  match copy_received 8 0 RxBufferLen RxBuffer (replicate 8 0) with
  | Some d => Some (mkCANMessage RxMessageID RxBufferLen d RxTimestamp)
  | None => None
  end.

Lemma copy_received_spec (len : Z) (buf : list Z) :
  length buf = 8%nat ->
  forall (fuel b : nat) (data : list Z),
    length data = 8%nat ->
    (b + fuel = 8)%nat ->
    copy_received fuel (Z.of_nat b) len buf data =
    Some (take b data ++
          take (Z.to_nat (Z.min len 8) - b) (drop b buf) ++
          drop (Nat.max b (Z.to_nat (Z.min len 8))) data).
Proof.
  intros Hbuf. induction fuel as [|fuel IH]; intros b data Hdata Hb.
  - assert (b = 8%nat) as -> by lia. cbn [copy_received].
    replace (Z.of_nat 8 <? 8) with false by done. rewrite andb_false_r.
    replace (Z.to_nat (Z.min len 8) - 8)%nat with 0%nat by lia.
    rewrite take_0, drop_ge, take_ge by lia. by rewrite !app_nil_r.
  - cbn [copy_received].
    destruct (Z.of_nat b <? len) eqn:Hlt.
    + apply Z.ltb_lt in Hlt.
      replace (Z.of_nat b <? 8) with true by (symmetry; apply Z.ltb_lt; lia).
      cbn [andb].
      destruct (buf !! b) as [v|] eqn:Hv; [|apply lookup_ge_None in Hv; lia].
      rewrite array_get_nat, Hv, array_set_nat by lia.
      replace (Z.of_nat b + 1) with (Z.of_nat (S b)) by lia.
      rewrite IH by (rewrite ?length_insert; lia). f_equal.
      replace (Z.to_nat (Z.min len 8) - b)%nat
        with (S (Z.to_nat (Z.min len 8) - S b)) by lia.
      rewrite (drop_S _ _ _ Hv). cbn [take].
      rewrite (take_S_r (<[b:=v]> data) b v) by (apply list_lookup_insert_eq; lia).
      rewrite take_insert_ge by lia. rewrite <- app_assoc. cbn [app].
      rewrite drop_insert_lt by lia.
      replace (Nat.max (S b) (Z.to_nat (Z.min len 8)))
        with (Nat.max b (Z.to_nat (Z.min len 8))) by lia.
      done.
    + apply Z.ltb_ge in Hlt. cbn [andb].
      replace (Z.to_nat (Z.min len 8) - b)%nat with 0%nat by lia.
      replace (Nat.max b (Z.to_nat (Z.min len 8))) with b by lia.
      by rewrite take_0, app_nil_l, take_drop.
Qed.

Lemma wrap_received_spec (ident len ts : Z) (buf : list Z) :
  length buf = 8%nat ->
  wrap_received ident len buf ts =
  Some (mkCANMessage ident len
          (take (Z.to_nat (Z.min len 8)) buf ++
           replicate (8 - Z.to_nat (Z.min len 8)) 0) ts).
Proof.
  intros Hbuf. unfold wrap_received. change 0 with (Z.of_nat 0) at 1.
  rewrite (copy_received_spec len buf Hbuf 8 0) by done.
  rewrite take_0, app_nil_l, drop_0, Nat.sub_0_r, Nat.max_0_l.
  by rewrite drop_replicate.
Qed.

(** X18: the frame built on reception.  For a receive buffer of eight bytes
    the frame carries the identifier, the length and the time stamp as
    received (the length is not clamped to 8), its payload array has eight
    bytes, the first [min(len, 8)] of them are the received ones and all
    bytes from the declared length on are zero. *)
Theorem received_frame_is_zero_padded (ident len ts : Z) (buf : list Z) :
  length buf = 8%nat ->
  exists f, wrap_received ident len buf ts = Some f /\
    can_id f = ident /\ dlc f = len /\ timestamp f = ts /\
    wf_msg f /\
    (forall i, (i < 8)%nat -> Z.of_nat i < len -> data f !! i = buf !! i) /\
    (forall i, (i < 8)%nat -> len <= Z.of_nat i -> data f !! i = Some 0).
Proof.
  intros Hbuf. eexists. split; [by apply wrap_received_spec|]. cbn.
  split; [done|]. split; [done|]. split; [done|].
  set (k := Z.to_nat (Z.min len 8)).
  assert (Hk : (k <= 8)%nat) by lia.
  split; [|split].
  - unfold wf_msg. cbn. rewrite length_app, length_take, length_replicate. lia.
  - intros i Hi Hlt. rewrite lookup_app_l by (rewrite length_take; lia).
    apply lookup_take_lt. lia.
  - intros i Hi Hge. rewrite lookup_app_r by (rewrite length_take; lia).
    apply lookup_replicate_2. rewrite length_take. lia.
Qed.

(** X19: received bytes beyond the declared length are not part of the
    frame that [main] builds.  Two receive buffers that agree on their first
    [len] bytes (whatever stale bytes follow) give frames with the same
    payload; so [detect_anomaly] returns the same verdict and
    [learn_baseline] leaves the same store on the two frames, also when the
    time stamps differ. *)
Theorem stale_buffer_bytes_are_dropped (ident len ts1 ts2 : Z) (buf1 buf2 : list Z) (s : IDS) :
  length buf1 = 8%nat -> length buf2 = 8%nat ->
  take (Z.to_nat len) buf1 = take (Z.to_nat len) buf2 ->
  exists f1 f2,
    wrap_received ident len buf1 ts1 = Some f1 /\
    wrap_received ident len buf2 ts2 = Some f2 /\
    data f1 = data f2 /\
    detect_anomaly idRanges f1 s = detect_anomaly idRanges f2 s /\
    learn_baseline f1 s = learn_baseline f2 s.
Proof.
  intros H1 H2 Htake.
  eexists _, _. split; [by apply wrap_received_spec|].
  split; [by apply wrap_received_spec|]. cbn [data].
  assert (Hd : take (Z.to_nat (Z.min len 8)) buf1 = take (Z.to_nat (Z.min len 8)) buf2).
  { destruct (Z.le_ge_cases len 8) as [Hle|Hge].
    - by rewrite Z.min_l by done.
    - rewrite Z.min_r by done.
      rewrite <- (take_ge buf1 (Z.to_nat len)), <- (take_ge buf2 (Z.to_nat len)) at 1
        by lia.
      by rewrite Htake. }
  rewrite Hd. split; [done|]. split; reflexivity.
Qed.

(** ** [getTemperature] *)

(** Binary32 arithmetic ([float]), every operation rounded to nearest even. *)
Definition float_prec : Z := 24.
Definition float_emax : Z := 128.

(** Conversion of an [int] to [float] (exact below 2^24). *)
Definition float_of_Z (z : Z) : spec_float :=
  binary_normalize float_prec float_emax z 0 false.

(** The literals [0.0625f] (2^-4), [1.8f] (0x1.CCCCCCp+0, the float
    nearest to 9/5) and [32.0f]. *)
Definition float_0_0625 : spec_float := S754_finite false 8388608 (-27).
Definition float_1_8 : spec_float := S754_finite false 15099494 (-23).
Definition float_32 : spec_float := S754_finite false 8388608 (-18).

(** The conversion [(uint8_t) f]: the fraction is discarded; the result is
    defined when the integral part is a [uint8_t]. *)
Definition uint8_of_float (f : spec_float) : option Z :=
  match f with
  | S754_zero _ => Some 0
  | S754_finite sign m e =>
      let magnitude := if 0 <=? e then Zpos m * 2 ^ e else Zpos m / 2 ^ (- e) in
      let z := if sign then - magnitude else magnitude in
      if (0 <=? z) && (z <? 256) then Some z else None
  | _ => None
  end.

(** The floating-point tail of [getTemperature] for the register value
    [temp], in sixteenths of a degree Celsius. *)
Definition fahrenheit_byte (temp : Z) : option Z :=
  let cTemp := SFmul float_prec float_emax (float_of_Z temp) float_0_0625 in
  let fTemp := SFadd float_prec float_emax
                 (SFmul float_prec float_emax cTemp float_1_8) float_32 in
  uint8_of_float fTemp.

Definition getTemperature (rawTempValue : list Z) : option Z :=
  match array_get rawTempValue 0, array_get rawTempValue 1 with
  | Some r0, Some r1 =>
      let temp := Z.land r0 0x1F * 256 + r1 in
      let temp := if temp >? 4095 then temp - 8192 else temp in
      fahrenheit_byte temp
  | _, _ => None
  end.

(** The value of the 13-bit two's complement register field. *)
Definition register_value (r0 r1 : Z) : Z :=
  let u := (r0 mod 32) * 256 + r1 in
  if u <? 4096 then u else u - 8192.

(** Fahrenheit from sixteenths of a degree Celsius in exact arithmetic,
    fraction discarded: 1.8 * (t / 16) + 32 = (9 t + 2560) / 80. *)
Definition exact_fahrenheit (t : Z) : option Z :=
  if (-80 <? 9 * t + 2560) && (9 * t + 2560 <? 20480)
  then Some (Z.quot (9 * t + 2560) 80) else None.

Lemma float_literals :
  float_0_0625 = SFdiv float_prec float_emax (float_of_Z 1) (float_of_Z 16) /\
  float_1_8 = SFdiv float_prec float_emax (float_of_Z 18) (float_of_Z 10) /\
  float_32 = float_of_Z 32.
Proof. split; [|split]; vm_compute; reflexivity. Qed.

Lemma fahrenheit_table :
  forallb (fun n => let t := Z.of_nat n - 4096 in
                    match fahrenheit_byte t, exact_fahrenheit t with
                    | Some a, Some b => a =? b
                    | None, None => true
                    | _, _ => false
                    end)
          (seq 0 (Z.to_nat 8192)) = true.
Proof. vm_cast_no_check (eq_refl true). Qed.

Lemma fahrenheit_byte_exact (t : Z) :
  -4096 <= t <= 4095 -> fahrenheit_byte t = exact_fahrenheit t.
Proof.
  intros Ht. pose proof fahrenheit_table as H. rewrite forallb_forall in H.
  specialize (H (Z.to_nat (t + 4096))).
  cbv zeta in H. replace (Z.of_nat (Z.to_nat (t + 4096)) - 4096) with t in H by lia.
  assert (Hin : In (Z.to_nat (t + 4096)) (seq 0 (Z.to_nat 8192))) by (apply in_seq; lia).
  apply H in Hin.
  destruct (fahrenheit_byte t), (exact_fahrenheit t); try done.
  by apply Z.eqb_eq in Hin as ->.
Qed.

Lemma getTemperature_register (r0 r1 : Z) :
  is_byte r0 -> is_byte r1 ->
  -4096 <= register_value r0 r1 <= 4095 /\
  getTemperature [r0; r1] = fahrenheit_byte (register_value r0 r1).
Proof.
  unfold is_byte. intros H0 H1.
  pose proof (Z.mod_pos_bound r0 32 ltac:(lia)) as Hm.
  assert (Hland : Z.land r0 31 = r0 mod 32)
    by (change 31 with (Z.ones 5); by rewrite Z.land_ones by lia).
  split.
  - unfold register_value; cbv zeta; destruct (_ <? 4096) eqn:E;
      [apply Z.ltb_lt in E|apply Z.ltb_ge in E]; lia.
  - unfold getTemperature, register_value. cbv zeta.
    change (array_get [r0; r1] 0) with (Some r0).
    change (array_get [r0; r1] 1) with (Some r1).
    cbv beta iota. rewrite Hland. f_equal.
    rewrite Z.gtb_ltb.
    destruct (4095 <? r0 mod 32 * 256 + r1) eqn:E1;
      destruct (r0 mod 32 * 256 + r1 <? 4096) eqn:E2; try done;
      [apply Z.ltb_lt in E1, E2|apply Z.ltb_ge in E1, E2]; lia.
Qed.

Lemma register_value_low_bits (r0 r1 : Z) :
  register_value (r0 mod 32) r1 = register_value r0 r1.
Proof. unfold register_value. by rewrite Z.mod_mod by lia. Qed.

Lemma exact_fahrenheit_above_120 (t v : Z) :
  exact_fahrenheit t = Some v -> 0 <= v <= 255 /\ (v >? 120) = (792 <=? t).
Proof.
  unfold exact_fahrenheit.
  destruct ((-80 <? 9 * t + 2560) && (9 * t + 2560 <? 20480)) eqn:E; [|done].
  intros [= <-]. apply andb_true_iff in E as [E1 E2].
  apply Z.ltb_lt in E1, E2.
  destruct (Z.le_gt_cases 0 (9 * t + 2560)) as [Hpos|Hneg].
  - rewrite Z.quot_div_nonneg by lia.
    pose proof (Z.div_mod (9 * t + 2560) 80 ltac:(lia)) as Hdm.
    pose proof (Z.mod_pos_bound (9 * t + 2560) 80 ltac:(lia)) as Hmb.
    split; [lia|]. rewrite Z.gtb_ltb.
    destruct (Z.ltb_spec 120 ((9 * t + 2560) / 80)), (Z.leb_spec 792 t); try done; lia.
  - replace (Z.quot (9 * t + 2560) 80) with 0
      by (symmetry; apply Z.quot_small_iff; lia).
    split; [lia|]. symmetry. apply Z.leb_gt. lia.
Qed.

(** X20: [getTemperature] is the exact Fahrenheit value with the fraction
    discarded.  For two register bytes it uses the 13-bit two's complement
    field only (the three flag bits of the first byte are ignored) and
    the rounded [float] computation gives, for every register value [t] in
    sixteenths of a degree Celsius, exactly the integer part of
    [(9 t + 2560) / 80]; the result is defined when that value lies strictly
    between -1 and 256 (about -18.3 to 124.4 degrees Celsius), and outside
    of this range the conversion to [uint8_t] is undefined. *)
Theorem getTemperature_is_exact (r0 r1 : Z) :
  is_byte r0 -> is_byte r1 ->
  -4096 <= register_value r0 r1 <= 4095 /\
  getTemperature [r0; r1] = exact_fahrenheit (register_value r0 r1) /\
  getTemperature [r0; r1] = getTemperature [r0 mod 32; r1].
Proof.
  intros H0 H1.
  destruct (getTemperature_register r0 r1 H0 H1) as [Hrange Hget].
  split; [done|]. split.
  - rewrite Hget. by apply fahrenheit_byte_exact.
  - rewrite Hget.
    destruct (getTemperature_register (r0 mod 32) r1) as [_ Hget'];
      [unfold is_byte in *; pose proof (Z.mod_pos_bound r0 32 ltac:(lia)); lia|done|].
    by rewrite Hget', register_value_low_bits.
Qed.

(** ** From the sensor to the classifier *)

(** X21: the temperature frame of the node under its own payload check.
    [main] sends the converted temperature as byte 0 of a frame of one byte
    with identifier 0x321.  For a register value from -293 to 1991
    sixteenths of a degree (about -18.3 to 124.4 degrees Celsius; these are
    the values for which the conversion of [getTemperature] to [uint8_t] is
    defined) the conversion returns a byte, and for the frame that the
    receive path builds from a reception carrying this byte the payload
    check of [detect_anomaly] fires exactly when the register value is at
    least 792 (49.5 degrees Celsius, the first reading that converts to 121
    degrees Fahrenheit); with 0x321 in a configured range and no learned
    entry of another length this is the verdict of the classifier.  Register
    values outside of -293 .. 1991 are not covered. *)
Theorem temperature_frame_verdict (r0 r1 ts : Z) (RxBuffer : list Z) (s : IDS) :
  is_byte r0 -> is_byte r1 ->
  -293 <= register_value r0 r1 <= 1991 ->
  length RxBuffer = 8%nat ->
  exists v, getTemperature [r0; r1] = Some v /\
    0 <= v <= 255 /\
    (RxBuffer !! 0%nat = Some v ->
     exists f, wrap_received 0x321 1 RxBuffer ts = Some f /\
       data f = [v; 0; 0; 0; 0; 0; 0; 0] /\
       payload_out_of_range f s = Some (792 <=? register_value r0 r1, s) /\
       (id_in_ranges idRanges 0x321 = true ->
        (Z.to_nat (baseline_count s) <= length (baselines s))%nat ->
        (forall j e, lookup_baseline s 0x321 = Some (j, e) -> bl_dlc e = 1) ->
        detect_anomaly idRanges f s = Some (792 <=? register_value r0 r1, s))).
Proof.
  intros H0 H1 Hdef Hlen.
  destruct (getTemperature_register r0 r1 H0 H1) as [Hrange Hget].
  assert (Hex : exists v, exact_fahrenheit (register_value r0 r1) = Some v).
  { unfold exact_fahrenheit.
    replace ((-80 <? 9 * register_value r0 r1 + 2560) &&
             (9 * register_value r0 r1 + 2560 <? 20480)) with true
      by (symmetry; apply andb_true_iff; split; apply Z.ltb_lt; lia).
    by eexists. }
  destruct Hex as [v Hv]. exists v.
  split; [by rewrite Hget, fahrenheit_byte_exact|].
  apply exact_fahrenheit_above_120 in Hv as [Hbyte Hv].
  split; [done|]. intros Hbuf.
  destruct RxBuffer as [|x rest]; [done|]. injection Hbuf as ->.
  eexists. split; [by apply wrap_received_spec|].
  set (f := mkCANMessage _ _ _ _).
  assert (Hdata : data f = [v; 0; 0; 0; 0; 0; 0; 0]) by reflexivity.
  assert (Hp : payload_out_of_range f s = Some (792 <=? register_value r0 r1, s)).
  { rewrite <- Hv. apply payload_out_of_range_temp; [cbn; lia|by rewrite Hdata]. }
  split; [done|]. split; [done|].
  intros Hin Hcount Hdlc.
  rewrite detect_anomaly_after_dlc; [done|done|].
  rewrite dlc_mismatch_spec by done. change (can_id f) with 0x321.
  destruct (lookup_baseline s 0x321) as [[j e]|] eqn:Hl; [|done].
  by rewrite (Hdlc j e eq_refl).
Qed.

(** ** The admitted-frame counter at its wrap-around *)

Lemma admit_all_below_capacity (fs : list CANMessage) :
  forall s : IDS,
    0 <= count (window s) ->
    count (window s) + Z.of_nat (length fs) < WINDOW_SIZE ->
    WINDOW_SIZE <= COUNT_MODULUS ->
    uart_alerts (admit_all WINDOW_SIZE COUNT_MODULUS fs s) = uart_alerts s /\
    count (window (admit_all WINDOW_SIZE COUNT_MODULUS fs s)) =
      count (window s) + Z.of_nat (length fs).
Proof.
  induction fs as [|f fs IH]; intros s H0 Hlt Hle; cbn [admit_all length] in *.
  - split; [done|lia].
  - assert (Hc : count (window (admit_state WINDOW_SIZE COUNT_MODULUS f s)) =
                   count (window s) + 1 /\
                 uart_alerts (admit_state WINDOW_SIZE COUNT_MODULUS f s) = uart_alerts s).
    { unfold admit_state, dos_raised, window_push. cbn [count].
      rewrite Z.mod_small by lia.
      replace (count (window s) + 1 >=? WINDOW_SIZE) with false
        by (symmetry; rewrite Z.geb_leb; apply Z.leb_gt; lia).
      done. }
    destruct Hc as [Hc Ha].
    destruct (IH (admit_state WINDOW_SIZE COUNT_MODULUS f s)) as [IH1 IH2]; [lia|lia|done|].
    split; [by rewrite IH1|]. rewrite IH2, Hc. lia.
Qed.

(** X22: the flood test is suspended when the counter wraps.  The counter
    of admitted frames is only ever incremented; when it stands at its
    largest value, the next admitted frame takes it to 0, and that frame and
    the following [WINDOW_SIZE - 1] admitted frames raise no alert, whatever
    the ring holds and whatever identifiers they carry (also a flood of one
    identifier that raised an alert at every frame before). *)
Theorem counter_wrap_suspends_flood_test (f : CANMessage) (fs : list CANMessage) (s : IDS) :
  wf_window WINDOW_SIZE s ->
  WINDOW_SIZE < 2 ^ 32 ->
  WINDOW_SIZE <= COUNT_MODULUS ->
  count (window s) = COUNT_MODULUS - 1 ->
  (length fs < Z.to_nat WINDOW_SIZE)%nat ->
  Forall (fun g => detect_anomaly idRanges g s = Some (false, s)) (f :: fs) ->
  exists s', receive_all idRanges WINDOW_SIZE COUNT_MODULUS (f :: fs) s = Some (tt, s') /\
    count (window s') = Z.of_nat (length fs) /\
    uart_alerts s' = uart_alerts s.
Proof.
  intros Hwf Hsmall Hle Hcount Hlen Hfs.
  eexists. split; [by apply receive_all_spec|]. cbn [admit_all].
  destruct Hwf as [_ Hidx].
  assert (Hc : count (window (admit_state WINDOW_SIZE COUNT_MODULUS f s)) = 0 /\
               uart_alerts (admit_state WINDOW_SIZE COUNT_MODULUS f s) = uart_alerts s).
  { unfold admit_state, dos_raised, window_push. cbn [count]. rewrite Hcount.
    replace (COUNT_MODULUS - 1 + 1) with COUNT_MODULUS by lia.
    rewrite Z.mod_same by lia.
    replace (0 >=? WINDOW_SIZE) with false
      by (symmetry; rewrite Z.geb_leb; apply Z.leb_gt; lia).
    done. }
  destruct Hc as [Hc Ha].
  destruct (admit_all_below_capacity fs (admit_state WINDOW_SIZE COUNT_MODULUS f s))
    as [H1 H2]; [lia|lia|done|].
  split; [rewrite H2, Hc; lia|by rewrite H1].
Qed.

End Coverage.

(** ** The further properties on the concrete engine *)

(** A frame of identifier 0x301 with two declared bytes. *)
Definition two_byte_frame : CANMessage :=
  mkCANMessage 0x301 2 [25; 1; 0; 0; 0; 0; 0; 0] 0.

(** Traffic with one frame outside every range and one overheated
    temperature frame among admissible ones. *)
Definition mixed_traffic : list CANMessage :=
  [frame 0x300 25; frame 0x050 25; frame 0x301 130; frame 0x302 25].

Definition twelve_of_one : list CANMessage := replicate 12 (frame 0x321 25).
Definition nine_of_one : list CANMessage := replicate 9 (frame 0x321 25).

Lemma twelve_of_one_admissible :
  Forall (fun f => detect_anomaly example_ranges f s0 = Some (false, s0)) twelve_of_one.
Proof. repeat (apply Forall_cons; split; [reflexivity|]). apply Forall_nil_2. Qed.

Lemma nine_of_one_admissible :
  Forall (fun f => detect_anomaly example_ranges f s0 = Some (false, s0)) nine_of_one.
Proof. repeat (apply Forall_cons; split; [reflexivity|]). apply Forall_nil_2. Qed.

Lemma s1_room : baseline_count s1 < BASELINE_CAPACITY.
Proof. unfold BASELINE_CAPACITY. cbn. lia. Qed.

Lemma learn_baseline_keeps_invariants_witness :
  exists s', learn_baseline (frame 0x301 25) s1 = Some (tt, s') /\
    wf_baselines s' /\
    NoDup (learned_ids s') /\
    baseline_count s1 <= baseline_count s' <= baseline_count s1 + 1 /\
    window s' = window s1 /\
    uart_alerts s' = uart_alerts s1.
Proof.
  apply (learn_baseline_keeps_invariants (frame 0x301 25) s1 s1_wf_baselines eq_refl).
  apply (bool_decide_unpack _). vm_compute. exact I.
Defined.

Lemma learn_then_lookup_witness :
  exists s' j e,
    learn_baseline (frame 0x301 25) s1 = Some (tt, s') /\
    lookup_baseline s' 0x301 = Some (j, e) /\
    bl_can_id e = 0x301 /\
    bl_dlc e = 1 /\
    (lookup_baseline s1 0x301 = None ->
     j = Z.to_nat (baseline_count s1) /\ expected_pattern e = data (frame 0x301 25)) /\
    (forall j0 e0, lookup_baseline s1 0x301 = Some (j0, e0) ->
     j = j0 /\ expected_pattern e = expected_pattern e0).
Proof.
  apply (learn_then_lookup (frame 0x301 25) s1 s1_wf_baselines eq_refl).
  right. exact s1_room.
Defined.

Lemma learn_leaves_other_identifiers_witness :
  exists s', learn_baseline (frame 0x301 25) s1 = Some (tt, s') /\
    lookup_baseline s' 0x300 = lookup_baseline s1 0x300.
Proof.
  apply (learn_leaves_other_identifiers (frame 0x301 25) s1 0x300 s1_wf_baselines eq_refl).
  cbn. lia.
Defined.

Lemma learned_entry_persists_witness :
  exists s' e', learn_baseline two_byte_frame s1 = Some (tt, s') /\
    lookup_baseline s' 0x300 = Some (0%nat, e') /\
    bl_can_id e' = 0x300 /\
    expected_pattern e' = expected_pattern learned_0x300 /\
    (0x300 <> can_id two_byte_frame -> e' = learned_0x300).
Proof.
  apply (learned_entry_persists two_byte_frame s1 0x300 0%nat learned_0x300
           s1_wf_baselines eq_refl).
  reflexivity.
Defined.

Lemma learn_then_detect_witness :
  exists s', learn_baseline (frame 0x301 25) s1 = Some (tt, s') /\
    dlc_mismatch (frame 0x301 25) s' = Some (false, s') /\
    dlc_mismatch two_byte_frame s' = Some (true, s') /\
    (id_in_ranges example_ranges 0x301 = true -> 2 <> 1 ->
     detect_anomaly example_ranges two_byte_frame s' = Some (true, s')).
Proof.
  apply (learn_then_detect example_ranges (frame 0x301 25) two_byte_frame s1
           s1_wf_baselines eq_refl).
  - right. exact s1_room.
  - reflexivity.
Defined.

Lemma id_in_ranges_contract_witness :
  (exists r, r ∈ example_ranges /\ range_start r <= 0x399 <= range_end r) /\
  id_in_ranges [mkIdRange 0x399 0x300] 0x345 = false.
Proof.
  split.
  - apply (proj1 (id_in_ranges_contract example_ranges 0x399)). reflexivity.
  - apply (proj2 (id_in_ranges_contract [mkIdRange 0x399 0x300] 0x345)).
    apply Forall_cons. split; [cbn; lia|apply Forall_nil_2].
Defined.

Lemma detect_anomaly_verdict_witness :
  exists b, detect_anomaly example_ranges two_byte_frame s1 = Some (b, s1) /\
    (b = false <->
     (exists r, r ∈ example_ranges /\ range_start r <= 0x301 <= range_end r) /\
     (forall j e, lookup_baseline s1 0x301 = Some (j, e) -> 2 = bl_dlc e) /\
     (0x300 <= 0x301 <= 0x399 -> 25 <= 120)).
Proof.
  apply (detect_anomaly_verdict example_ranges two_byte_frame s1 25).
  - cbn. lia.
  - reflexivity.
Defined.

Lemma payload_ignored_outside_temperature_witness :
  detect_anomaly example_ranges (frame 0x400 200) s1 =
  detect_anomaly example_ranges (mkCANMessage 0x400 1 [] 5) s1.
Proof.
  apply (payload_ignored_outside_temperature example_ranges
           (frame 0x400 200) (mkCANMessage 0x400 1 [] 5) s1);
    [reflexivity | reflexivity | cbn; lia].
Defined.

Lemma dispatcher_call_is_safe_witness :
  exists s', CAN_MessageReceived example_ranges example_window_size example_count_modulus
               (frame 0x300 25) s0 = Some (tt, s') /\
    baselines s' = baselines s0 /\
    baseline_count s' = baseline_count s0 /\
    wf_window example_window_size s' /\
    (uart_alerts s' = uart_alerts s0 \/
     exists k, uart_alerts s' = uart_alerts s0 ++ [(k, frame 0x300 25)]).
Proof.
  apply (dispatcher_call_is_safe example_ranges example_window_size example_count_modulus
           (frame 0x300 25) s0 s0_wf_baselines eq_refl s0_wf_window).
  unfold example_window_size. lia.
Defined.

Lemma anomalous_frames_are_transparent_witness :
  exists s', receive_all example_ranges example_window_size example_count_modulus
               mixed_traffic s0 = Some (tt, s') /\
    same_store s0 s' /\
    window s' =
      window (admit_all example_window_size example_count_modulus
                (filter (fun f => admitted_by example_ranges s0 f = true) mixed_traffic) s0) /\
    anomaly_reports (uart_alerts s') =
      anomaly_reports (uart_alerts s0) ++
      filter (fun f => admitted_by example_ranges s0 f = false) mixed_traffic.
Proof.
  apply (anomalous_frames_are_transparent example_ranges example_window_size
           example_count_modulus mixed_traffic s0 s0_wf_baselines s0_wf_window).
  - unfold example_window_size. lia.
  - repeat (apply Forall_cons; split; [reflexivity|]). apply Forall_nil_2.
Defined.

Lemma ring_is_sliding_window_witness :
  exists s', receive_all example_ranges example_window_size example_count_modulus
               plain_round_robin s0 = Some (tt, s') /\
    index (window s') = Z.of_nat (length plain_round_robin) mod example_window_size /\
    length (messages (window s')) = Z.to_nat example_window_size /\
    (forall t f, plain_round_robin !! t = Some f ->
       (length plain_round_robin <= t + Z.to_nat example_window_size)%nat ->
       messages (window s') !! (t mod Z.to_nat example_window_size)%nat = Some f).
Proof.
  apply (ring_is_sliding_window example_ranges example_window_size example_count_modulus
           plain_round_robin s0 s0_wf_window eq_refl).
  - unfold example_window_size. lia.
  - exact plain_round_robin_admissible.
Defined.

Lemma no_flood_alert_before_ring_is_full_witness :
  exists s', receive_all example_ranges example_window_size example_count_modulus
               nine_of_one s0 = Some (tt, s') /\
    uart_alerts s' = uart_alerts s0.
Proof.
  apply (no_flood_alert_before_ring_is_full example_ranges example_window_size
           example_count_modulus nine_of_one s0 s0_wf_window eq_refl eq_refl).
  - unfold example_count_modulus. lia.
  - unfold example_window_size. lia.
  - unfold example_window_size. cbn. lia.
  - exact nine_of_one_admissible.
Defined.

Lemma flood_alert_at_every_frame_witness :
  exists s', receive_all example_ranges example_window_size example_count_modulus
               twelve_of_one s0 = Some (tt, s') /\
    uart_alerts s' =
    uart_alerts s0 ++
    ((fun f => (ALERT_DOS_DETECTED, f)) <$> drop (Z.to_nat example_window_size - 1) twelve_of_one).
Proof.
  apply (flood_alert_at_every_frame example_ranges example_window_size
           example_count_modulus twelve_of_one 0x321 s0 s0_wf_window eq_refl eq_refl).
  - unfold example_window_size. lia.
  - unfold example_count_modulus. cbn. lia.
  - unfold example_window_size. cbn. lia.
  - repeat (apply Forall_cons; split; [reflexivity|]). apply Forall_nil_2.
  - exact twelve_of_one_admissible.
Defined.

Lemma hamming_distance_counts_bits_witness :
  hamming_distance [0x0F; 0xFF; 7] [0xF0; 0xFF; 9] 2 =
    Some (total_bit_differences [0x0F; 0xFF] [0xF0; 0xFF] mod 256) /\
  hamming_distance [0x0F; 0xFF; 7] [0xF0; 0xFF; 9] 4 = None.
Proof.
  split.
  - apply (proj1 (hamming_distance_counts_bits [0x0F; 0xFF; 7] [0xF0; 0xFF; 9] 2));
      cbn; lia.
  - apply (proj2 (hamming_distance_counts_bits [0x0F; 0xFF; 7] [0xF0; 0xFF; 9] 4)).
    left. cbn. lia.
Defined.

Lemma hamming_distance_zero_iff_equal_witness :
  exists d, hamming_distance [0x0F; 0xFF; 7] [0x0F; 0xFF; 9] 2 = Some d /\
    d = total_bit_differences [0x0F; 0xFF] [0x0F; 0xFF] /\
    0 <= d <= 8 * 2 /\
    (Forall is_byte [0x0F; 0xFF; 7] -> Forall is_byte [0x0F; 0xFF; 9] ->
     (d = 0 <-> [0x0F; 0xFF] = [0x0F; 0xFF])).
Proof.
  apply (hamming_distance_zero_iff_equal [0x0F; 0xFF; 7] [0x0F; 0xFF; 9] 2); cbn; lia.
Defined.

Lemma hamming_distance_triangle_witness :
  exists d12 d23 d13,
    hamming_distance [0x0F; 1] [0xF0; 1] 2 = Some d12 /\
    hamming_distance [0xF0; 1] [0xFF; 3] 2 = Some d23 /\
    hamming_distance [0x0F; 1] [0xFF; 3] 2 = Some d13 /\
    d13 <= d12 + d23.
Proof.
  apply (hamming_distance_triangle [0x0F; 1] [0xF0; 1] [0xFF; 3] 2); cbn; lia.
Defined.

Lemma received_frame_is_zero_padded_witness :
  exists f, wrap_received 0x300 2 [25; 1; 9; 9; 9; 9; 9; 9] 7 = Some f /\
    can_id f = 0x300 /\ dlc f = 2 /\ timestamp f = 7 /\
    wf_msg f /\
    (forall i, (i < 8)%nat -> Z.of_nat i < 2 ->
       data f !! i = [25; 1; 9; 9; 9; 9; 9; 9] !! i) /\
    (forall i, (i < 8)%nat -> 2 <= Z.of_nat i -> data f !! i = Some 0).
Proof.
  apply (received_frame_is_zero_padded 0x300 2 7 [25; 1; 9; 9; 9; 9; 9; 9]).
  reflexivity.
Defined.

Lemma stale_buffer_bytes_are_dropped_witness :
  exists f1 f2,
    wrap_received 0x300 2 [25; 1; 9; 9; 9; 9; 9; 9] 7 = Some f1 /\
    wrap_received 0x300 2 [25; 1; 0; 0; 0; 0; 0; 0] 8 = Some f2 /\
    data f1 = data f2 /\
    detect_anomaly example_ranges f1 s1 = detect_anomaly example_ranges f2 s1 /\
    learn_baseline f1 s1 = learn_baseline f2 s1.
Proof.
  apply (stale_buffer_bytes_are_dropped example_ranges 0x300 2 7 8
           [25; 1; 9; 9; 9; 9; 9; 9] [25; 1; 0; 0; 0; 0; 0; 0] s1);
    reflexivity.
Defined.

(** The register bytes 0xC1 0x90 (alert flags set, 25 degrees Celsius) give
    77 degrees Fahrenheit. *)
Lemma getTemperature_is_exact_witness :
  -4096 <= register_value 0xC1 0x90 <= 4095 /\
  getTemperature [0xC1; 0x90] = exact_fahrenheit (register_value 0xC1 0x90) /\
  getTemperature [0xC1; 0x90] = getTemperature [0xC1 mod 32; 0x90].
Proof.
  apply (getTemperature_is_exact 0xC1 0x90); unfold is_byte; lia.
Defined.

(** The register bytes 0x03 0x20 (50 degrees Celsius) give 122 degrees
    Fahrenheit, and the frame that carries them is rejected. *)
Lemma temperature_frame_verdict_witness :
  exists v, getTemperature [0x03; 0x20] = Some v /\
    0 <= v <= 255 /\
    ([122; 9; 9; 9; 9; 9; 9; 9] !! 0%nat = Some v ->
     exists f, wrap_received 0x321 1 [122; 9; 9; 9; 9; 9; 9; 9] 0 = Some f /\
       data f = [v; 0; 0; 0; 0; 0; 0; 0] /\
       payload_out_of_range f s0 = Some (792 <=? register_value 0x03 0x20, s0) /\
       (id_in_ranges example_ranges 0x321 = true ->
        (Z.to_nat (baseline_count s0) <= length (baselines s0))%nat ->
        (forall j e, lookup_baseline s0 0x321 = Some (j, e) -> bl_dlc e = 1) ->
        detect_anomaly example_ranges f s0 =
          Some (792 <=? register_value 0x03 0x20, s0))).
Proof.
  apply (temperature_frame_verdict example_ranges 0x03 0x20 0
           [122; 9; 9; 9; 9; 9; 9; 9] s0).
  - unfold is_byte. lia.
  - unfold is_byte. lia.
  - vm_compute. split; discriminate.
  - reflexivity.
Defined.

(** A state in the middle of a flood of 0x321 whose counter stands at its
    largest value. *)
Definition s_wrap : IDS :=
  mkIDS (baselines s0) 0
        (mkMessageWindow (replicate 10 (frame 0x321 25)) 0 (example_count_modulus - 1)) [].

Lemma counter_wrap_suspends_flood_test_witness :
  exists s', receive_all example_ranges example_window_size example_count_modulus
               (frame 0x321 25 :: nine_of_one) s_wrap = Some (tt, s') /\
    count (window s') = Z.of_nat (length nine_of_one) /\
    uart_alerts s' = uart_alerts s_wrap.
Proof.
  apply (counter_wrap_suspends_flood_test example_ranges example_window_size
           example_count_modulus (frame 0x321 25) nine_of_one s_wrap).
  - split; [reflexivity|]. cbn. unfold example_window_size. lia.
  - unfold example_window_size. lia.
  - unfold example_window_size, example_count_modulus. lia.
  - reflexivity.
  - unfold example_window_size. cbn. lia.
  - repeat (apply Forall_cons; split; [reflexivity|]). apply Forall_nil_2.
Defined.
